(** * reqwire.scaffold: requirement source files and their headers

    A shallow embedding of [src/reqwire/scaffold.py] and the properties of
    its five public functions: [build_filename], [build_source_header],
    [extend_source_file], [init_source_dir] and [init_source_file].

    Conventions of the embedding.
    - A Python text string is a [string]; its characters are the code points
      below 256.  A line break is the single character LF.
    - A [pathlib] path is a root and a list of components (POSIX flavour).
    - The file system, the clock and the failures the operating system can
      report live in a [World]; effectful code is a function from the world
      to an outcome and the world it leaves behind, so what was done before
      an exception is raised stays done.
    - The helpers of [reqwire.helpers.requirements] are the fields of the
      class [Collaborators]; the [%c] rendering of the C library is the
      field of the class [Locale]. *)

From Stdlib Require Import Ascii String ZArith Lia.
From stdpp Require Import base option list strings gmap sets.

Local Open Scope Z_scope.

(** ** Python text *)

Module Text.

Definition LF : ascii := "010"%char.
Definition nl : string := String LF EmptyString.

(** [bool(s)]: a string is true when it is not empty. *)
Definition truthy (s : string) : bool :=
  match s with EmptyString => false | String _ _ => true end.

(** The characters [str.strip()] removes, among the code points below 256. *)
Definition is_space (c : ascii) : bool :=
  match c with
  | "009" | "010" | "011" | "012" | "013"
  | "028" | "029" | "030" | "031" | " " | "133" | "160" => true
  | _ => false
  end%char.

Fixpoint all_chars (P : ascii → bool) (s : string) : bool :=
  match s with
  | EmptyString => true
  | String c s' => P c && all_chars P s'
  end.

Fixpoint lstrip (s : string) : string :=
  match s with
  | EmptyString => EmptyString
  | String c s' => if is_space c then lstrip s' else s
  end.

Fixpoint rstrip (s : string) : string :=
  match s with
  | EmptyString => EmptyString
  | String c s' =>
      match rstrip s' with
      | EmptyString => if is_space c then EmptyString else String c EmptyString
      | r => String c r
      end
  end.

(** [s.strip()] *)
Definition strip (s : string) : string := rstrip (lstrip s).

(** [sep.join(parts)] *)
Definition join (sep : string) (parts : list string) : string :=
  String.concat sep parts.

(** [s.split(sep)] for a one-character separator. *)
Fixpoint split (sep : ascii) (s : string) : list string :=
  match s with
  | EmptyString => [EmptyString]
  | String c s' =>
      if Ascii.eqb c sep then EmptyString :: split sep s'
      else match split sep s' with
           | [] => [String c EmptyString]
           | p :: ps => String c p :: ps
           end
  end.

(** The lines of a text: the pieces that end at each LF, and the piece
    after the last LF when it is not empty. *)
Definition lines (s : string) : list string :=
  let ps := split LF s in
  match last ps with
  | Some EmptyString => removelast ps
  | _ => ps
  end.

(** Each line followed by a line break. *)
Definition unlines (ls : list string) : string :=
  foldr (λ l acc, l +:+ nl +:+ acc) EmptyString ls.

Definition single_line (s : string) : bool :=
  all_chars (λ c, negb (Ascii.eqb c LF)) s.

(** A blank line has nothing but white space on it. *)
Definition blank (l : string) : bool := all_chars is_space l.

Fixpoint no_double_blank (ls : list string) : bool :=
  match ls with
  | a :: (b :: _) as rest => negb (blank a && blank b) && no_double_blank rest
  | _ => true
  end.

(** The text ends with one LF and the character before it is not an LF. *)
Fixpoint one_trailing_newline (s : string) : bool :=
  match s with
  | EmptyString => false
  | String c EmptyString => Ascii.eqb c LF
  | String c (String d EmptyString) => negb (Ascii.eqb c LF) && Ascii.eqb d LF
  | String _ s' => one_trailing_newline s'
  end.

Definition starts_with (p s : string) : bool := String.prefix p s.

(** [s.encode('utf-8')] for code points below 256: one byte below 128,
    two bytes from 128 on. *)
Definition encode_char (c : ascii) : list Byte.byte :=
  let n := N_of_ascii c in
  if (n <? 128)%N then [byte_of_ascii c]
  else [byte_of_ascii (ascii_of_N (192 + n / 64));
        byte_of_ascii (ascii_of_N (128 + n mod 64))].

Fixpoint encode_utf8 (s : string) : list Byte.byte :=
  match s with
  | EmptyString => []
  | String c s' => encode_char c ++ encode_utf8 s'
  end.

End Text.

(** ** [pathlib] paths, POSIX flavour *)

Module Pathlib.

(** [root] is empty for a relative path and is one or two slashes for an
    absolute one; [parts] are the components after the root. *)
Record Path := mkPath { root : string; parts : list string }.

Global Instance Path_eq_dec : EqDecision Path.
Proof. solve_decision. Defined.

Definition slash : ascii := "/"%char.

(** The root of a path text: two leading slashes are kept apart from one
    and from three or more, as POSIX allows. *)
Definition parse_root (s : string) : string :=
  match Text.starts_with "/" s, Text.starts_with "//" s,
        Text.starts_with "///" s with
  | true, true, false => "//"
  | true, _, _ => "/"
  | _, _, _ => EmptyString
  end.

(** Empty components and [.] components are dropped. *)
Definition keep_part (p : string) : bool :=
  negb (String.eqb p EmptyString) && negb (String.eqb p ".").

Definition parse_parts (s : string) : list string :=
  filter (λ p, keep_part p = true) (Text.split slash s).

(** [pathlib.Path(s)] *)
Definition parse (s : string) : Path :=
  mkPath (parse_root s) (parse_parts s).

(** [self / other]: an absolute right operand replaces the left one. *)
Definition joinpath (p : Path) (other : string) : Path :=
  let q := parse other in
  if Text.truthy (root q) then q
  else mkPath (root p) (parts p ++ parts q).

(** [str(self)] *)
Definition to_str (p : Path) : string :=
  match root p, parts p with
  | EmptyString, [] => "."
  | r, ps => r +:+ Text.join "/" ps
  end.

(** [self.parent]: a path without components is its own parent. *)
Definition parent (p : Path) : Path :=
  mkPath (root p) (removelast (parts p)).

Fixpoint strip_prefix (pre l : list string) : option (list string) :=
  match pre, l with
  | [], _ => Some l
  | x :: pre', y :: l' =>
      if String.eqb x y then strip_prefix pre' l' else None
  | _ :: _, [] => None
  end.

(** [self.relative_to(other)]: [None] stands for the [ValueError] raised
    when [other] is not a lexical prefix of [self]. *)
Definition relative_to (p other : Path) : option Path :=
  if String.eqb (root p) (root other) then
    mkPath EmptyString <$> strip_prefix (parts other) (parts p)
  else None.

End Pathlib.

Export Pathlib(Path, mkPath).

(** ** The world: file system, injected failures, clock *)

(** The error numbers an [OSError] carries. *)
Inductive errno :=
  EEXIST | ENOENT | ENOTDIR | EISDIR | EACCES | EROFS | ENOSPC | EIO.

Global Instance errno_eq_dec : EqDecision errno.
Proof. solve_decision. Defined.

(** The exceptions of the program.  [IndexUrlMismatchError] is
    [reqwire.errors.IndexUrlMismatchError]; [CollaboratorError] stands for
    whatever a helper of [reqwire.helpers.requirements] raises. *)
Inductive exn :=
| OSError (e : errno)
| ValueError (msg : string)
| KeyError (key : string)
| IndexError
| IndexUrlMismatchError (msg : string)
| CollaboratorError (what : string).

Global Instance exn_eq_dec : EqDecision exn.
Proof. solve_decision. Defined.

(** [isinstance(e, OSError)] *)
Definition is_OSError (e : exn) : bool :=
  match e with OSError _ => true | _ => false end.

(** An exception that is not the mismatch error. *)
Definition not_mismatch (e : exn) : Prop :=
  match e with IndexUrlMismatchError _ => False | _ => True end.

Inductive outcome (A : Type) :=
| Return (a : A)
| Raise (e : exn).
Global Arguments Return {A} a.
Global Arguments Raise {A} e.

Inductive node :=
| File (data : list Byte.byte)
| Dir.

(** A [datetime.datetime] value. *)
Record datetime := mkDatetime {
  year : Z; month : Z; day : Z; hour : Z; minute : Z; second : Z
}.

(** [files] maps the text of a path to what is there.  [faults] lists the
    paths the operating system refuses to create or change, with the error
    it reports (no permission, read-only file system, disk full, ...).
    [clock] is the local time. *)
Record World := mkWorld {
  files : gmap string node;
  faults : gmap string errno;
  clock : datetime
}.

(** A computation reads and changes the world and returns or raises. *)
Definition M (A : Type) : Type := World → outcome A * World.

Definition ret {A} (a : A) : M A := λ w, (Return a, w).
Definition raise {A} (e : exn) : M A := λ w, (Raise e, w).
Definition bind {A B} (m : M A) (k : A → M B) : M B :=
  λ w, match m w with
       | (Return a, w') => k a w'
       | (Raise e, w') => (Raise e, w')
       end.

(** [try: body / except OSError: handler] *)
Definition try_except_OSError {A} (body : M A) (handler : exn → M A) : M A :=
  λ w, match body w with
       | (Raise e, w') => if is_OSError e then handler e w' else (Raise e, w')
       | r => r
       end.

(** A pure step that may raise. *)
Definition lift {A} (o : outcome A) : M A := λ w, (o, w).

Declare Scope M_scope.
Delimit Scope M_scope with M.
Notation "x <- m ;; k" := (bind m (λ x, k))
  (at level 100, m at next level, right associativity) : M_scope.
Notation "m ;; k" := (bind m (λ _, k))
  (at level 100, right associativity) : M_scope.
Local Open Scope M_scope.

(** [mapM]: run [f] on each element in order, stop at the first raise. *)
Fixpoint for_each {A B} (f : A → M B) (l : list A) : M (list B) :=
  match l with
  | [] => ret []
  | x :: l' => (y <- f x ;; ys <- for_each f l' ;; ret (y :: ys))
  end.

(** ** The operating system and [pathlib] on the world *)

Module OS.
Import Pathlib.

Definition lookup_path (p : Path) (w : World) : option node :=
  files w !! to_str p.

Definition set_node (p : Path) (n : node) (w : World) : World :=
  mkWorld (<[to_str p := n]> (files w)) (faults w) (clock w).

(** The refusal the system has in store for [p], if any. *)
Definition refused (p : Path) : M unit :=
  λ w, match faults w !! to_str p with
       | Some e => (Raise (OSError e), w)
       | None => (Return (), w)
       end.

(** What stands in the way of creating the entry [p]: the directory
    that should hold it is missing or is a file, or the system refuses. *)
Definition creatable (p : Path) : M unit :=
  λ w, match lookup_path (parent p) w with
       | None => (Raise (OSError ENOENT), w)
       | Some (File _) => (Raise (OSError ENOTDIR), w)
       | Some Dir => refused p w
       end.

(** [os.mkdir(p, mode)] *)
Definition os_mkdir (p : Path) (mode : Z) : M unit :=
  λ w, match lookup_path p w with
       | Some _ => (Raise (OSError EEXIST), w)
       | None => (creatable p ;; λ w', (Return (), set_node p Dir w')) w
       end.

(** [os.utime(p, None)] *)
Definition os_utime (p : Path) : M unit :=
  λ w, match lookup_path p w with
       | None => (Raise (OSError ENOENT), w)
       | Some _ => refused p w
       end.

(** [os.close(os.open(p, O_CREAT | O_WRONLY, mode))], or with [O_TRUNC]
    added when [trunc] is set. *)
Definition os_open_creat (p : Path) (trunc : bool) : M unit :=
  λ w, match lookup_path p w with
       | Some Dir => (Raise (OSError EISDIR), w)
       | Some (File d) =>
           (refused p ;;
            λ w', (Return (), if trunc then set_node p (File []) w' else w')) w
       | None =>
           (creatable p ;; λ w', (Return (), set_node p (File []) w')) w
       end.

(** [p.exists()] *)
Definition exists_ (p : Path) : M bool :=
  λ w, (Return (bool_decide (is_Some (lookup_path p w))), w).

(** [p.is_dir()] *)
Definition is_dir (p : Path) : M bool :=
  λ w, (Return (match lookup_path p w with Some Dir => true | _ => false end), w).

(** [p.touch(mode)], with [exist_ok] left at its default [True]: the
    modification time is bumped when the path is there, and only when
    that fails is the file opened for creation. *)
Definition touch (p : Path) (mode : Z) : M unit :=
  λ w, match os_utime p w with
       | (Return _, w') => (Return (), w')
       | (Raise _, w') => os_open_creat p false w'
       end.

(** One [Path.mkdir] without the creation of parents:
    [try: os.mkdir(self, mode) / except OSError:
       if not exist_ok or not self.is_dir(): raise]. *)
Definition mkdir_flat (p : Path) (mode : Z) (exist_ok : bool) : M unit :=
  try_except_OSError (os_mkdir p mode)
    (λ e, d <- is_dir p ;;
          if negb exist_ok || negb d then raise e else ret ()).

(** [Path.mkdir(mode, parents, exist_ok)] on the path with root [r] and
    the components [rev rparts]: on [FileNotFoundError], and when
    [parents] is set and the path is not its own parent, the parent is
    made first with [parents=True, exist_ok=True] and the default mode. *)
Fixpoint mkdir_from (r : string) (rparts : list string) (mode : Z)
    (parents exist_ok : bool) : M unit :=
  let self := mkPath r (rev rparts) in
  try_except_OSError (os_mkdir self mode)
    (λ e, match e, rparts with
          | OSError ENOENT, _ :: up =>
              if parents then
                (mkdir_from r up 511 true true ;;
                 mkdir_flat self mode exist_ok)
              else raise e
          | OSError ENOENT, [] => raise e
          | _, _ =>
              (d <- is_dir self ;;
               if negb exist_ok || negb d then raise e else ret ())
          end).

(** [p.mkdir(mode=mode, parents=parents)], [exist_ok] at its default. *)
Definition mkdir (p : Path) (mode : Z) (parents : bool) : M unit :=
  mkdir_from (root p) (rev (parts p)) mode parents false.

(** [io.open(str(p), 'wb', encoding=encoding, errors=errors)]: a binary
    mode takes neither an encoding nor an error handler; the file is
    created or emptied.  The handle is the path. *)
Definition io_open_wb (p : Path) (encoding errors : option string)
    : M Path :=
  match encoding, errors with
  | Some _, _ =>
      raise (ValueError "binary mode doesn't take an encoding argument")
  | None, Some _ =>
      raise (ValueError "binary mode doesn't take an errors argument")
  | None, None => (os_open_creat p true ;; ret p)
  end.

(** [f.write(data)] *)
Definition write (f : Path) (data : list Byte.byte) : M unit :=
  λ w, match lookup_path f w with
       | Some (File d) => (Return (), set_node f (File (d ++ data)) w)
       | _ => (Raise (OSError EIO), w)
       end.

(** [datetime.datetime.now()] *)
Definition now : M datetime := λ w, (Return (clock w), w).

(** The bytes of the file at [p], when there is one. *)
Definition read_bytes (p : Path) (w : World) : option (list Byte.byte) :=
  match lookup_path p w with
  | Some (File d) => Some d
  | _ => None
  end.

End OS.

(** ** [strftime] and [str.format] *)

(** The C library renders a conversion character for a time; what it
    prints depends on the platform and the locale. *)
Class Locale := { conversion : ascii → datetime → string }.

Module Format.
Import Text.

(** [timestamp.strftime(fmt)]: ordinary characters are copied, [%%] is a
    percent sign, [%X] is the rendering of the conversion [X].  A lone
    percent sign at the end is copied. *)
Fixpoint strftime_from {L : Locale} (percent : bool) (t : datetime)
    (fmt : string) : string :=
  match fmt with
  | EmptyString => if percent then "%" else EmptyString
  | String c rest =>
      if percent then
        (if Ascii.eqb c "%" then "%" else conversion c t)
          +:+ strftime_from false t rest
      else if Ascii.eqb c "%" then strftime_from true t rest
      else String c (strftime_from false t rest)
  end.

Definition strftime {L : Locale} (t : datetime) (fmt : string) : string :=
  strftime_from false t fmt.

(** Where the scan of a format string stands: in literal text, after an
    opening brace, inside the field name read so far, or after a closing
    brace in literal text. *)
Inductive scan :=
| Literal
| Opened
| Field (name : string)
| Closed.

Definition is_digit (c : ascii) : bool :=
  (48 <=? N_of_ascii c)%N && (N_of_ascii c <=? 57)%N.

(** The value of the field [key]: an empty or numbered field asks for a
    positional argument and there is none. *)
Definition lookup_kw (kw : list (string * string)) (key : string)
    : outcome string :=
  match List.find (λ kv, String.eqb kv.1 key) kw with
  | Some kv => Return kv.2
  | None =>
      if all_chars is_digit key then Raise IndexError
      else Raise (KeyError key)
  end.

Definition emit (s : string) (o : outcome string) : outcome string :=
  match o with
  | Return r => Return (s +:+ r)
  | Raise e => Raise e
  end.

(** [str.format] with keyword arguments [kw], for replacement fields that are a bare keyword,
    with the doubled braces that stand for a brace. *)
Fixpoint format_from (kw : list (string * string)) (st : scan)
    (fmt : string) : outcome string :=
  match fmt with
  | EmptyString =>
      match st with
      | Literal => Return EmptyString
      | Opened => Raise (ValueError "Single '{' encountered in format string")
      | Field _ => Raise (ValueError "expected '}' before end of string")
      | Closed => Raise (ValueError "Single '}' encountered in format string")
      end
  | String c rest =>
      match st with
      | Literal =>
          if Ascii.eqb c "{" then format_from kw Opened rest
          else if Ascii.eqb c "}" then format_from kw Closed rest
          else emit (String c EmptyString) (format_from kw Literal rest)
      | Opened =>
          if Ascii.eqb c "{" then emit "{" (format_from kw Literal rest)
          else if Ascii.eqb c "}" then
            match lookup_kw kw EmptyString with
            | Return v => emit v (format_from kw Literal rest)
            | Raise e => Raise e
            end
          else format_from kw (Field (String c EmptyString)) rest
      | Field name =>
          if Ascii.eqb c "}" then
            match lookup_kw kw name with
            | Return v => emit v (format_from kw Literal rest)
            | Raise e => Raise e
            end
          else if Ascii.eqb c "{" then
            Raise (ValueError "unexpected '{' in field name")
          else format_from kw (Field (name +:+ String c EmptyString)) rest
      | Closed =>
          if Ascii.eqb c "}" then emit "}" (format_from kw Literal rest)
          else Raise (ValueError "Single '}' encountered in format string")
      end
  end.

Definition format (fmt : string) (kw : list (string * string))
    : outcome string :=
  format_from kw Literal fmt.

Definition brace_free (s : string) : bool :=
  all_chars (λ c, negb (Ascii.eqb c "{") && negb (Ascii.eqb c "}")) s.

End Format.

(** ** [ordered_set.OrderedSet] *)

Module OrderedSet.

(** [s.add(x)]: a new element goes to the end, a known one changes
    nothing. *)
Definition add (s : list string) (x : string) : list string :=
  if decide (x ∈ s) then s else s ++ [x].

(** [s |= other]: the elements of [other] are added in its order. *)
Definition update (s other : list string) : list string :=
  foldl add s other.

(** [OrderedSet(iterable)] *)
Definition make (iterable : list string) : list string :=
  update [] iterable.

End OrderedSet.

(** The list without its repeats, each element where it first stands:
    insertion order kept, duplicates removed. *)
Fixpoint first_occurrences (l : list string) : list string :=
  match l with
  | [] => []
  | x :: l' => x :: filter (λ y, y ≠ x) (first_occurrences l')
  end.

(** ** The collaborators of [reqwire.helpers.requirements] *)

(** What a [RequirementFile] exposes, as read when the object is made:
    the nested files are given by their [filename] paths. *)
Module RequirementFile.
Record t (ireq : Type) `{Countable ireq} := mk {
  index_url : option string;
  extra_index_urls : list string;
  index_urls : gset string;
  nested_cfiles : list Path;
  nested_rfiles : list Path;
  requirements : gset ireq
}.
Global Arguments mk {ireq _ _} _ _ _ _ _ _.
Global Arguments index_url {ireq _ _} _.
Global Arguments extra_index_urls {ireq _ _} _.
Global Arguments index_urls {ireq _ _} _.
Global Arguments nested_cfiles {ireq _ _} _.
Global Arguments nested_rfiles {ireq _ _} _.
Global Arguments requirements {ireq _ _} _.
End RequirementFile.

(** A helper returns a value or raises an error of its own, named by a
    text, and may change the world. *)
Definition helper (A : Type) : Type := World → (A + string) * World.

Definition call {A} (h : helper A) : M A :=
  λ w, match h w with
       | (inl a, w') => (Return a, w')
       | (inr what, w') => (Raise (CollaboratorError what), w')
       end.

(** The helpers the module calls.  [ireq] is a resolved requirement: a
    canonical name and a constraint that admits some versions.
    [RequirementFile_] reads a manifest and changes nothing. *)
Class Collaborators := {
  ireq : Type;
  ireq_eq_dec :: EqDecision ireq;
  ireq_countable :: Countable ireq;
  version : Type;
  canonical_name : ireq → string;
  admits : ireq → version → Prop;
  RequirementFile_ : string → World → RequirementFile.t ireq + string;
  build_ireq_set :
    list string → gset string → bool → bool → string → bool →
    helper (gset ireq);
  resolve_ireqs : gset ireq → bool → bool → helper (list ireq);
  write_requirements : string → list ireq → string → helper unit
}.

(** ** [reqwire.scaffold] *)

Module Scaffold.
Import Text Format.

Definition MODELINES_HEADER : string :=
  "# -*- mode: requirementstxt -*-" +:+ nl +:+
  "# vim: set ft=requirements" +:+ nl.

Definition DEFAULT_HEADER : string :=
  MODELINES_HEADER +:+
  "# Generated by reqwire on %c" +:+ nl +:+
  "{nested_cfiles}" +:+ "{nested_rfiles}" +:+ "{index_url}" +:+
  "{extra_index_urls}" +:+ nl.

Definition default_extension : string := ".in".
Definition default_prefix : string := "src".

Definition build_filename (working_directory tag_name extension prefix
    : string) : Path :=
  let wd := Pathlib.joinpath (Pathlib.parse working_directory) prefix in
  Pathlib.joinpath wd (join EmptyString [tag_name; extension]).

(** [d[k] = v] on a dictionary kept in insertion order. *)
Fixpoint set_item (k v : string) (d : list (string * string))
    : list (string * string) :=
  match d with
  | [] => [(k, v)]
  | (k', v') :: d' =>
      if String.eqb k' k then (k, v) :: d' else (k', v') :: set_item k v d'
  end.

(** [for key in components: if components[key]: components[key] += LF] *)
Definition terminate (d : list (string * string)) : list (string * string) :=
  map (λ kv, if truthy kv.2 then (kv.1, kv.2 +:+ nl) else kv) d.

(** Lines 119-144: the four components of the header, each ended by a
    line break unless it is empty. *)
Definition header_components (index_url : option string)
    (extra_index_urls nested_cfiles nested_rfiles : option (list string))
    : list (string * string) :=
  let components :=
    [("nested_cfiles", EmptyString); ("nested_rfiles", EmptyString);
     ("index_url", EmptyString); ("extra_index_urls", EmptyString)] in
  let components :=
    match nested_cfiles with
    | Some fs =>
        set_item "nested_cfiles"
          (join nl (map (λ rfile, "-c " +:+ rfile) fs)) components
    | None => components
    end in
  let components :=
    match nested_rfiles with
    | Some fs =>
        set_item "nested_rfiles"
          (join nl (map (λ rfile, "-r " +:+ rfile) fs)) components
    | None => components
    end in
  let components :=
    match index_url with
    | Some u =>
        set_item "index_url" (join " " ["--index-url"; strip u]) components
    | None => components
    end in
  let components :=
    match extra_index_urls with
    | Some us =>
        set_item "extra_index_urls"
          (join nl (map (λ extra_index_url,
                           join " " ["--extra-index-url"; extra_index_url])
                        us))
          components
    | None => components
    end in
  terminate components.

Definition build_source_header {L : Locale}
    (format_string : option string)
    (index_url : option string)
    (extra_index_urls nested_cfiles nested_rfiles : option (list string))
    (timestamp : option datetime) : M string :=
  let format_string := default DEFAULT_HEADER format_string in
  timestamp <- match timestamp with
               | Some t => ret t
               | None => OS.now
               end ;;
  let components :=
    header_components index_url extra_index_urls nested_cfiles
      nested_rfiles in
  text <- lift (format (strftime timestamp format_string) components) ;;
  ret (strip text +:+ nl).

Definition init_source_dir (working_directory : string) (mode : Z)
    (create_parents exist_ok : bool) (name : string) : M Path :=
  let wd := Pathlib.parse working_directory in
  let src := Pathlib.joinpath wd name in
  try_except_OSError (OS.mkdir src mode create_parents)
    (λ e, if negb exist_ok then raise e else ret ()) ;;
  ret src.

Definition init_source_file {L : Locale} (working_directory tag_name
    extension : string) (index_url : option string)
    (extra_index_urls : option (list string))
    (encoding errors : option string) (mode : Z) (overwrite : bool)
    : M Path :=
  let filename :=
    build_filename working_directory tag_name extension default_prefix in
  try_except_OSError (OS.touch filename mode)
    (λ e, if negb overwrite then raise e else ret ()) ;;
  f <- OS.io_open_wb filename encoding errors ;;
  header <- build_source_header None None None None None None ;;
  OS.write f (encode_utf8 header) ;;
  ret filename.

Definition DQUOTE : string := String "034"%char EmptyString.

(** [str(x)] for an optional text. *)
Definition str_optional (x : option string) : string := default "None" x.

(** ['"{}" != "{}"'.format(index_url, recorded)] *)
Definition mismatch_message (index_url : string) (recorded : option string)
    : string :=
  DQUOTE +:+ index_url +:+ DQUOTE +:+ " != " +:+
  DQUOTE +:+ str_optional recorded +:+ DQUOTE.

Section extend.
Context {L : Locale} {C : Collaborators}.

(** [extend_source_file] runs under [interprocess_locked]; the lock is a
    file of its own and is not part of the model. *)

(** Lines 195-201: the check of the caller's index URL against the
    manifest, and what the call goes on with. *)
Definition check_index_url (file_exists : bool)
    (index_url : option string) (extra_index_urls : list string)
    (req_file : RequirementFile.t ireq)
    : outcome (option string * list string) :=
  if file_exists then
    match index_url with
    | Some u =>
        if bool_decide (Some u ≠ RequirementFile.index_url req_file)
        then Raise (IndexUrlMismatchError
                      (mismatch_message u
                         (RequirementFile.index_url req_file)))
        else Return (index_url, extra_index_urls)
    | None =>
        Return (RequirementFile.index_url req_file,
                OrderedSet.update extra_index_urls
                  (RequirementFile.extra_index_urls req_file))
    end
  else Return (index_url, extra_index_urls).

(** Lines 203-209: the index URLs the specifiers are looked up in. *)
Definition derive_lookup_index_urls
    (lookup_index_urls : option (gset string))
    (index_url : option string) (extra_index_urls : list string)
    (req_file : RequirementFile.t ireq) : gset string :=
  match lookup_index_urls with
  | Some given => given
  | None =>
      let lookup : gset string :=
        match index_url with Some u => {[u]} | None => ∅ end in
      let lookup := lookup ∪ list_to_set extra_index_urls in
      if bool_decide (lookup = ∅)
         && negb (bool_decide (RequirementFile.index_urls req_file = ∅))
      then lookup ∪ RequirementFile.index_urls req_file
      else lookup
  end.

(** [str(f.relative_to(base))], or the [ValueError] of [relative_to]. *)
Definition relative_label (base f : Path) : outcome string :=
  match Pathlib.relative_to f base with
  | Some rel => Return (Pathlib.to_str rel)
  | None =>
      Raise (ValueError ("'" +:+ Pathlib.to_str f +:+
                         "' does not start with '" +:+
                         Pathlib.to_str base +:+ "'"))
  end.

(** Lines 224-229: [OrderedSet(str(f.filename.relative_to(base)) for f
    in nested)]. *)
Definition nested_labels (base : Path) (nested : list Path)
    : M (list string) :=
  labels <- for_each (λ f, lift (relative_label base f)) nested ;;
  ret (OrderedSet.make labels).

(** Lines 211 and 219-238: merge the new requirements into the
    manifest's, intersect, label the nested files and rewrite. *)
Definition merge_and_rewrite (filename : Path)
    (req_file : RequirementFile.t ireq)
    (index_url : option string) (extra_index_urls : list string)
    (prereleases : bool) (new : gset ireq) : M unit :=
  let requirements := RequirementFile.requirements req_file ∪ new in
  resolved_requirements <-
    call (resolve_ireqs requirements prereleases true) ;;
  nested_cfiles <-
    nested_labels (Pathlib.parent filename)
      (RequirementFile.nested_cfiles req_file) ;;
  nested_rfiles <-
    nested_labels (Pathlib.parent filename)
      (RequirementFile.nested_rfiles req_file) ;;
  header <- build_source_header None index_url (Some extra_index_urls)
              (Some nested_cfiles) (Some nested_rfiles) None ;;
  call (write_requirements (Pathlib.to_str filename)
          resolved_requirements header).

(** [str(pathlib.Path(working_directory).parent)] *)
Definition resolve_source_dir (working_directory : string) : string :=
  Pathlib.to_str (Pathlib.parent (Pathlib.parse working_directory)).

Definition extend_source_file (working_directory tag_name : string)
    (specifiers : list string) (extension : string)
    (index_url : option string)
    (extra_index_urls : option (list string))
    (lookup_index_urls : option (gset string))
    (prereleases resolve_canonical_names resolve_versions : bool)
    : M unit :=
  let extra_index_urls :=
    match extra_index_urls with
    | None => OrderedSet.make []
    | Some us => OrderedSet.make us
    end in
  let filename :=
    build_filename working_directory tag_name extension default_prefix in
  req_file <-
    call (λ w, (RequirementFile_ (Pathlib.to_str filename) w, w)) ;;
  file_exists <- OS.exists_ filename ;;
  checked <- lift (check_index_url file_exists index_url
                     extra_index_urls req_file) ;;
  let index_url := checked.1 in
  let extra_index_urls := checked.2 in
  let lookup_index_urls :=
    derive_lookup_index_urls lookup_index_urls index_url
      extra_index_urls req_file in
  new <- call (build_ireq_set specifiers lookup_index_urls prereleases
                 resolve_canonical_names
                 (resolve_source_dir working_directory)
                 resolve_versions) ;;
  merge_and_rewrite filename req_file index_url extra_index_urls
    prereleases new.

End extend.

End Scaffold.

(** [label] is the text of the path that leads from the directory [base]
    to the file [f]: a relative path [rel] with [f = base / rel]. *)
Definition label_from (base f : Path) (label : string) : Prop :=
  ∃ rel : Path,
    Pathlib.root rel = EmptyString ∧
    f = mkPath (Pathlib.root base) (Pathlib.parts base ++ Pathlib.parts rel) ∧
    label = Pathlib.to_str rel.

(** ** The C locale *)

Module CLocale.
Import Text.

Definition digit (n : Z) : string :=
  String (ascii_of_N (48 + Z.to_N (n mod 10))) EmptyString.

(** The decimal digits of [n], at most [fuel] of them. *)
Fixpoint digits (fuel : nat) (n : Z) : string :=
  match fuel with
  | O => EmptyString
  | S fuel' =>
      if n <? 10 then digit n else digits fuel' (n / 10) +:+ digit n
  end.

Definition decimal (n : Z) : string :=
  if n <? 0 then "-" +:+ digits 20 (- n) else digits 20 n.

Definition two_digits (pad : string) (n : Z) : string :=
  if (0 <=? n) && (n <? 10) then pad +:+ decimal n else decimal n.

Definition day_names : list string :=
  ["Sun"; "Mon"; "Tue"; "Wed"; "Thu"; "Fri"; "Sat"].

Definition month_names : list string :=
  ["Jan"; "Feb"; "Mar"; "Apr"; "May"; "Jun";
   "Jul"; "Aug"; "Sep"; "Oct"; "Nov"; "Dec"].

Definition month_shift : list Z := [0; 3; 2; 5; 0; 3; 5; 1; 4; 6; 2; 4].

(** The day of the week, Sunday being 0. *)
Definition weekday (t : datetime) : Z :=
  let y := if month t <? 3 then year t - 1 else year t in
  (y + y / 4 - y / 100 + y / 400
   + nth (Z.to_nat (month t - 1)) month_shift 0 + day t) mod 7.

Definition name_of (names : list string) (i : Z) : string :=
  nth (Z.to_nat i) names "?".

Definition clock_text (t : datetime) : string :=
  two_digits "0" (hour t) +:+ ":" +:+ two_digits "0" (minute t) +:+ ":" +:+
  two_digits "0" (second t).

Definition render (c : ascii) (t : datetime) : string :=
  if Ascii.eqb c "a" then name_of day_names (weekday t)
  else if Ascii.eqb c "b" then name_of month_names (month t - 1)
  else if Ascii.eqb c "d" then two_digits "0" (day t)
  else if Ascii.eqb c "e" then two_digits " " (day t)
  else if Ascii.eqb c "H" then two_digits "0" (hour t)
  else if Ascii.eqb c "M" then two_digits "0" (minute t)
  else if Ascii.eqb c "S" then two_digits "0" (second t)
  else if Ascii.eqb c "m" then two_digits "0" (month t)
  else if Ascii.eqb c "Y" then decimal (year t)
  else if Ascii.eqb c "c" then
    name_of day_names (weekday t) +:+ " " +:+
    name_of month_names (month t - 1) +:+ " " +:+
    two_digits " " (day t) +:+ " " +:+ clock_text t +:+ " " +:+
    decimal (year t)
  else String "%" (String c EmptyString).

Definition locale : Locale := {| conversion := render |}.

End CLocale.

(** ** The Version Intersector and a set of collaborators to run with *)

(** Modelled from the spec: the contract of the Version Intersector,
    [resolve_ireqs] with [intersect=true], which is not part of this
    module.  Its result has one entry for each canonical name of its
    input, and that entry admits the versions every input entry of the
    name admits: the intersection of their ranges. *)
Definition intersector_contract {C : Collaborators} : Prop :=
  ∀ reqs prereleases w out w',
    resolve_ireqs reqs prereleases true w = (inl out, w') →
    NoDup (canonical_name <$> out) ∧
    (∀ r, r ∈ out → ∃ r', r' ∈ reqs ∧ canonical_name r' = canonical_name r) ∧
    (∀ r', r' ∈ reqs → ∃ r, r ∈ out ∧ canonical_name r = canonical_name r') ∧
    (∀ r v, r ∈ out →
       admits r v ↔
       ∀ r', r' ∈ reqs → canonical_name r' = canonical_name r → admits r' v).

Module Demo.
Import Text.

(** A requirement with whole-number versions: [lower <= v < upper]. *)
Record requirement := mkReq {
  name : string;
  lower : option Z;
  upper : option Z
}.

Global Instance requirement_eq_dec : EqDecision requirement.
Proof. solve_decision. Defined.

Global Instance requirement_countable : Countable requirement.
Proof.
  refine (inj_countable' (λ r, (name r, lower r, upper r))
                         (λ t, mkReq t.1.1 t.1.2 t.2) _).
  by intros [].
Defined.

Definition admits_version (r : requirement) (v : Z) : Prop :=
  from_option (λ l, l ≤ v) True (lower r) ∧
  from_option (λ u, v < u) True (upper r).

Definition max_lower (a b : option Z) : option Z :=
  match a, b with
  | Some x, Some y => Some (Z.max x y)
  | Some x, None => Some x
  | None, _ => b
  end.

Definition min_upper (a b : option Z) : option Z :=
  match a, b with
  | Some x, Some y => Some (Z.min x y)
  | Some x, None => Some x
  | None, _ => b
  end.

Definition meet (a b : requirement) : requirement :=
  mkReq (name a) (max_lower (lower a) (lower b))
        (min_upper (upper a) (upper b)).

Fixpoint merge_into (r : requirement) (acc : list requirement)
    : list requirement :=
  match acc with
  | [] => [r]
  | a :: acc' =>
      if String.eqb (name a) (name r) then meet a r :: acc'
      else a :: merge_into r acc'
  end.

Definition merge_by_name (reqs : list requirement) : list requirement :=
  foldl (λ acc r, merge_into r acc) [] reqs.

(** What holds of the merged entries [acc] once the entries [seen] have
    gone in. *)
Definition merged (acc seen : list requirement) : Prop :=
  NoDup (name <$> acc) ∧
  (∀ n, n ∈ name <$> acc ↔ n ∈ name <$> seen) ∧
  (∀ r v, r ∈ acc →
     admits_version r v ↔
     ∀ r', r' ∈ seen → name r' = name r → admits_version r' v).

Definition satisfiable (r : requirement) : bool :=
  match lower r, upper r with
  | Some l, Some u => l <? u
  | _, _ => true
  end.

(** Modelled from the spec: the Version Intersector.  The entries are
    merged by canonical name, each name keeping the intersection of its
    ranges; an empty range is a failure, not a dropped entry. *)
Definition intersector (reqs : gset requirement)
    (prereleases intersect : bool) : helper (list requirement) :=
  λ w, let given := elements reqs in
       let out := if intersect then merge_by_name given else given in
       if forallb satisfiable out then (inl out, w)
       else (inr "unsatisfiable", w).

Definition requirement_line (r : requirement) : string :=
  name r +:+
  from_option (λ l, ">=" +:+ CLocale.decimal l) EmptyString (lower r) +:+
  match lower r, upper r with
  | Some _, Some _ => ","
  | _, _ => EmptyString
  end +:+
  from_option (λ u, "<" +:+ CLocale.decimal u) EmptyString (upper r).

(** Modelled from the spec: the persistence primitive
    [write_requirements].  The header and one line for each requirement
    replace what the file held. *)
Definition writer (filename : string) (reqs : list requirement)
    (header : string) : helper unit :=
  λ w, match bind (OS.io_open_wb (Pathlib.parse filename) None None)
               (λ f, OS.write f
                       (encode_utf8
                          (header +:+ unlines (requirement_line <$> reqs))))
               w with
       | (Return _, w') => (inl (), w')
       | (Raise _, w') => (inr "write failed", w')
       end.

(** Collaborators for a known manifest: whatever the path, the manifest
    read is [manifest] and the specifiers resolve to [resolved]. *)
Definition collaborators (manifest : RequirementFile.t requirement)
    (resolved : gset requirement + string) : Collaborators := {|
  ireq := requirement;
  version := Z;
  canonical_name := name;
  admits := admits_version;
  RequirementFile_ := λ _ _, inl manifest;
  build_ireq_set := λ _ _ _ _ _ _ w, (resolved, w);
  resolve_ireqs := intersector;
  write_requirements := writer
|}.

End Demo.

(** ** Worlds and manifests to run on *)

Module Fixture.
Import Text.

Definition tuesday : datetime := mkDatetime 2026 11 3 16 46 5.

Definition old_content : list Byte.byte :=
  encode_utf8 ("flask>=1,<3" +:+ nl).

(** A tree with the manifest [/work/src/base.in] in it. *)
Definition tree : gmap string node :=
  list_to_map [("/", Dir); ("/work", Dir); ("/work/src", Dir);
               ("/work/src/base.in", File old_content)].

Definition with_manifest : World := mkWorld tree ∅ tuesday.

(** The working directory is there, its [src] is not. *)
Definition bare : World :=
  mkWorld (list_to_map [("/", Dir); ("/work", Dir)]) ∅ tuesday.

(** As [bare], and the system lets nobody create [/work/src]. *)
Definition denied : World :=
  mkWorld (list_to_map [("/", Dir); ("/work", Dir)])
          {[ "/work/src" := EACCES ]} tuesday.

Definition flask_old : Demo.requirement := Demo.mkReq "flask" (Some 1) (Some 3).
Definition flask_new : Demo.requirement := Demo.mkReq "flask" (Some 2) (Some 4).
Definition six_new : Demo.requirement := Demo.mkReq "six" None None.

(** The manifest records the index [https://a] and two nested files. *)
Definition manifest_a : RequirementFile.t Demo.requirement :=
  RequirementFile.mk (Some "https://a") ["https://x"]
    {[ "https://a"; "https://x" ]}
    [mkPath "/" ["work"; "src"; "common.in"];
     mkPath "/" ["work"; "src"; "common.in"]]
    [mkPath "/" ["work"; "src"; "sub"; "extra.in"]]
    {[ flask_old ]}.

(** The manifest records no index of its own. *)
Definition manifest_plain : RequirementFile.t Demo.requirement :=
  RequirementFile.mk None [] {[ "https://nested" ]} [] [] {[ flask_old ]}.

Definition resolved_new : gset Demo.requirement + string :=
  inl {[ flask_new; six_new ]}.

Definition manifest_path : Path := mkPath "/" ["work"; "src"; "base.in"].

Definition collaborators_a : Collaborators :=
  Demo.collaborators manifest_a resolved_new.

(** Extending the manifest that records [https://a], no index given. *)
Definition extended : outcome unit * World :=
  Scaffold.extend_source_file (L := CLocale.locale)
    (C := Demo.collaborators manifest_a resolved_new)
    "/work" "base" ["flask>=2,<4"; "six"] ".in" None None None
    false true true with_manifest.

(** What the manifest holds after that. *)
Definition extended_content : string :=
  "# -*- mode: requirementstxt -*-" +:+ nl +:+
  "# vim: set ft=requirements" +:+ nl +:+
  "# Generated by reqwire on Tue Nov  3 16:46:05 2026" +:+ nl +:+
  "-c common.in" +:+ nl +:+
  "-r sub/extra.in" +:+ nl +:+
  "--index-url https://a" +:+ nl +:+
  "--extra-index-url https://x" +:+ nl +:+
  "six" +:+ nl +:+
  "flask>=2,<3" +:+ nl.

(** A file name with two empty lines in it. *)
Definition broken_name : string := "a" +:+ nl +:+ nl +:+ nl +:+ "b".

End Fixture.

(** ** The lines of a header *)

Module Header.
Import Text.

Definition banner {L : Locale} (t : datetime) : string :=
  "# Generated by reqwire on " +:+ conversion "c"%char t.

(** One line for each nested file, for the index URL and for each extra
    index URL, in the order of the default template. *)
Definition directives (index_url : option string)
    (extra_index_urls nested_cfiles nested_rfiles : option (list string))
    : list string :=
  map (λ f, "-c " +:+ f) (default [] nested_cfiles) ++
  map (λ f, "-r " +:+ f) (default [] nested_rfiles) ++
  from_option (λ u, ["--index-url " +:+ strip u]) [] index_url ++
  map (λ u, "--extra-index-url " +:+ u) (default [] extra_index_urls).

Definition all_lines {L : Locale} (t : datetime)
    (index_url : option string)
    (extra_index_urls nested_cfiles nested_rfiles : option (list string))
    : list string :=
  ["# -*- mode: requirementstxt -*-"; "# vim: set ft=requirements";
   banner t] ++
  directives index_url extra_index_urls nested_cfiles nested_rfiles.

(** The lines with the white space at the end of the last one removed. *)
Definition rstrip_last (ls : list string) : list string :=
  match reverse ls with
  | [] => []
  | l :: before => reverse before ++ [rstrip l]
  end.

(** The header with none of the four components: three lines. *)
Definition fresh_header {L : Locale} (t : datetime) : string :=
  unlines (rstrip_last (all_lines t None None None None)).

(** A component after the loop of lines 142-144. *)
Definition ended (v : string) : string :=
  if truthy v then v +:+ nl else v.

(** The rendering of [%c] is text that [str.format] copies. *)
Definition copied_clock {L : Locale} (t : datetime) : Prop :=
  Format.brace_free (conversion "c"%char t) = true.

(** No line break inside the rendering of [%c], a file name, an index
    URL once stripped, or an extra index URL. *)
Definition one_line_each {L : Locale} (t : datetime)
    (index_url : option string)
    (extra_index_urls nested_cfiles nested_rfiles : option (list string))
    : Prop :=
  single_line (conversion "c"%char t) = true ∧
  Forall (λ f, single_line f = true) (default [] nested_cfiles) ∧
  Forall (λ f, single_line f = true) (default [] nested_rfiles) ∧
  from_option (λ u, single_line (strip u) = true) True index_url ∧
  Forall (λ u, single_line u = true) (default [] extra_index_urls).

(** The first character of a line is not white space. *)
Definition starts_black (l : string) : bool :=
  match l with
  | EmptyString => false
  | String c _ => negb (is_space c)
  end.

End Header.

(** ** Names, templates and further worlds *)

Module Names.
Import Text.

Definition slash_free (s : string) : bool :=
  all_chars (λ c, negb (Ascii.eqb c "/")) s.

(** One component of a path: not empty, without a slash, not the dot. *)
Definition simple_name (s : string) : bool :=
  truthy s && slash_free s && negb (String.eqb s ".").





(** The index URL and the extra index URLs a call of [extend_source_file]
    goes on with, as lines 185-201 settle them. *)
Definition effective_index_url (file_exists : bool)
    (index_url recorded : option string) : option string :=
  match index_url with
  | Some u => Some u
  | None => if file_exists then recorded else None
  end.

Definition effective_extra_index_urls (file_exists : bool)
    (index_url : option string) (given recorded : list string)
    : list string :=
  match index_url with
  | Some _ => given
  | None => if file_exists then given ++ recorded else given
  end.

End Names.

Module Fixture2.
Import Text Fixture.

(** A manifest that includes a file of the working directory, outside
    the directory it is in itself. *)
Definition manifest_outside : RequirementFile.t Demo.requirement :=
  RequirementFile.mk None [] ∅
    [mkPath "/" ["work"; "src"; "common.in"]]
    [mkPath "/" ["work"; "common.in"]]
    {[ flask_old ]}.



(** The tree with [/work/src] in it and no manifest. *)
Definition with_src : World :=
  mkWorld (list_to_map [("/", Dir); ("/work", Dir); ("/work/src", Dir)])
          ∅ tuesday.

End Fixture2.

(** * Properties *)

(** ** Running a computation *)

Section running.
Context {A B : Type}.

Lemma bind_return (m : M A) (k : A → M B) w a w1 :
  m w = (Return a, w1) → bind m k w = k a w1.
Proof. intros Hm. unfold bind. by rewrite Hm. Qed.

Lemma bind_raise (m : M A) (k : A → M B) w e w1 :
  m w = (Raise e, w1) → bind m k w = (Raise e, w1).
Proof. intros Hm. unfold bind. by rewrite Hm. Qed.

Lemma return_inj (a a' : A) (w w' : World) :
  (Return a, w) = (Return a', w') → a = a' ∧ w = w'.
Proof. by intros [= -> ->]. Qed.

Lemma return_raise_inj (e e' : exn) (w w' : World) :
  (Raise e : outcome A, w) = (Raise e', w') → e = e' ∧ w = w'.
Proof. by intros [= -> ->]. Qed.

(** A sequence returns only if its first step returns. *)
Lemma bind_return_inv (m : M A) (k : A → M B) w b w' :
  bind m k w = (Return b, w') →
  ∃ a w1, m w = (Return a, w1) ∧ k a w1 = (Return b, w').
Proof.
  unfold bind. destruct (m w) as [[a|e] w1]; intros Hk; [eauto | done].
Qed.

(** A sequence raises in its first step or, that one done, in the rest. *)
Lemma bind_raise_inv (m : M A) (k : A → M B) w e w' :
  bind m k w = (Raise e, w') →
  m w = (Raise e, w') ∨
  ∃ a w1, m w = (Return a, w1) ∧ k a w1 = (Raise e, w').
Proof.
  unfold bind. destruct (m w) as [[a|e1] w1]; intros Hk; [eauto |].
  left. congruence.
Qed.
End running.

(** ** [build_filename] *)

Section build_filename_facts.
Import Pathlib Scaffold.

Lemma join_pair (a b : string) : Text.join EmptyString [a; b] = a +:+ b.
Proof. reflexivity. Qed.

(** C8.  [build_filename] takes no world and returns no outcome: it is a
    value computed from its four arguments, the path
    [working_directory / prefix / (tag_name + extension)], whatever the
    file system holds.  On [/work], [base], [.in], [src] it is the path
    [/work/src/base.in]. *)
Theorem build_filename_is_pure_join :
  (∀ working_directory tag_name extension prefix,
     build_filename working_directory tag_name extension prefix
     = joinpath (joinpath (parse working_directory) prefix)
                (tag_name +:+ extension)) ∧
  build_filename "/work" "base" ".in" "src"
  = mkPath "/" ["work"; "src"; "base.in"] ∧
  to_str (build_filename "/work" "base" ".in" "src") = "/work/src/base.in" ∧
  build_filename "/work" "base" ".in" "src" = parse "/work/src/base.in".
Proof.
  split; [| by vm_compute].
  intros wd tag ext prefix. unfold build_filename. by rewrite join_pair.
Qed.
End build_filename_facts.

(** ** [init_source_dir] *)

Section init_source_dir_facts.
Import Pathlib Scaffold.

(** Any error number can come out of the creation of a directory. *)
Lemma mkdir_raises_any (e : errno) mode parents :
  let w := mkWorld (list_to_map [("/", Dir); ("/work", Dir)])
                   {[ "/work/src" := e ]} Fixture.tuesday in
  OS.mkdir (mkPath "/" ["work"; "src"]) mode parents w
  = (Raise (OSError e), w).
Proof. by destruct e, parents. Qed.

(** C10.  Whatever [OSError] the creation of the directory raises,
    [init_source_dir] with [exist_ok=true] drops it and returns
    [working_directory / name], and with [exist_ok=false] raises the
    same error. *)
Theorem init_source_dir_exist_ok_swallows_every_OSError
    (working_directory : string) (mode : Z) (create_parents : bool)
    (name : string) (e : errno) (w w' : World) :
  OS.mkdir (joinpath (parse working_directory) name) mode create_parents w
    = (Raise (OSError e), w') →
  init_source_dir working_directory mode create_parents true name w
    = (Return (joinpath (parse working_directory) name), w') ∧
  init_source_dir working_directory mode create_parents false name w
    = (Raise (OSError e), w').
Proof.
  intros Hmk. unfold init_source_dir, bind, try_except_OSError.
  by rewrite Hmk.
Qed.

(** The directory cannot be created for lack of permission, not because
    it is there. *)
Lemma init_source_dir_exist_ok_swallows_every_OSError_witness :
  init_source_dir "/work" 511 true true "src" Fixture.denied
    = (Return (mkPath "/" ["work"; "src"]), Fixture.denied) ∧
  init_source_dir "/work" 511 true false "src" Fixture.denied
    = (Raise (OSError EACCES), Fixture.denied).
Proof.
  apply (init_source_dir_exist_ok_swallows_every_OSError
           "/work" 511 true "src" EACCES Fixture.denied Fixture.denied).
  by vm_compute.
Defined.
End init_source_dir_facts.

(** ** [extend_source_file]: the index URL check *)

Section index_url_check.
Import Pathlib Scaffold.
Context {L : Locale} {C : Collaborators}.

(** [extend_source_file] up to the check, when the manifest is read. *)
Lemma extend_source_file_checked working_directory tag_name specifiers
    extension index_url extra_index_urls lookup_index_urls prereleases
    resolve_canonical_names resolve_versions w req_file :
  let filename :=
    build_filename working_directory tag_name extension default_prefix in
  let given := OrderedSet.make (default [] extra_index_urls) in
  RequirementFile_ (to_str filename) w = inl req_file →
  extend_source_file working_directory tag_name specifiers extension
    index_url extra_index_urls lookup_index_urls prereleases
    resolve_canonical_names resolve_versions w
  = match check_index_url (bool_decide (is_Some (files w !! to_str filename)))
            index_url given req_file with
    | Raise e => (Raise e, w)
    | Return checked =>
        bind (call (build_ireq_set specifiers
                      (derive_lookup_index_urls lookup_index_urls
                         checked.1 checked.2 req_file)
                      prereleases resolve_canonical_names
                      (resolve_source_dir working_directory)
                      resolve_versions))
             (merge_and_rewrite filename req_file checked.1 checked.2
                prereleases) w
    end.
Proof.
  intros filename given Hload.
  unfold extend_source_file, bind at 1, call at 1. fold filename.
  rewrite Hload. unfold bind at 1, OS.exists_, OS.lookup_path.
  unfold bind at 1, lift.
  replace (match extra_index_urls with
           | Some us => OrderedSet.make us
           | None => OrderedSet.make []
           end) with given by (by destruct extra_index_urls).
  by destruct (check_index_url _ _ _ _).
Qed.

(** The check raises as soon as the manifest is there and does not
    record the index URL given; nothing has been changed by then. *)
Lemma extend_source_file_mismatch_raised
    working_directory tag_name specifiers extension (u : string)
    extra_index_urls lookup_index_urls prereleases
    resolve_canonical_names resolve_versions w req_file :
  let filename :=
    build_filename working_directory tag_name extension default_prefix in
  is_Some (files w !! to_str filename) →
  RequirementFile_ (to_str filename) w = inl req_file →
  RequirementFile.index_url req_file ≠ Some u →
  extend_source_file working_directory tag_name specifiers extension
    (Some u) extra_index_urls lookup_index_urls prereleases
    resolve_canonical_names resolve_versions w
  = (Raise (IndexUrlMismatchError
              (mismatch_message u (RequirementFile.index_url req_file))), w).
Proof.
  intros filename Hex Hload Hne.
  rewrite (extend_source_file_checked _ _ _ _ _ _ _ _ _ _ _ _ Hload).
  fold filename. unfold check_index_url.
  rewrite (bool_decide_eq_true_2 _ Hex).
  rewrite bool_decide_eq_true_2; [done | congruence].
Qed.

(** C1.  The manifest is there and records the index URL [A]; the caller
    gives [B], another one.  The call raises the mismatch error and the
    world it leaves is the world it found, the bytes of the manifest
    with it. *)
Theorem extend_source_file_index_url_mismatch
    working_directory tag_name specifiers extension (A B : string)
    extra_index_urls lookup_index_urls prereleases
    resolve_canonical_names resolve_versions w req_file :
  let filename :=
    build_filename working_directory tag_name extension default_prefix in
  is_Some (files w !! to_str filename) →
  RequirementFile_ (to_str filename) w = inl req_file →
  RequirementFile.index_url req_file = Some A →
  B ≠ A →
  ∃ w',
    extend_source_file working_directory tag_name specifiers extension
      (Some B) extra_index_urls lookup_index_urls prereleases
      resolve_canonical_names resolve_versions w
    = (Raise (IndexUrlMismatchError (mismatch_message B (Some A))), w') ∧
    w' = w ∧
    OS.read_bytes filename w' = OS.read_bytes filename w.
Proof.
  intros filename Hex Hload HA HBA. exists w.
  split; [| done]. rewrite <- HA.
  apply extend_source_file_mismatch_raised; [done | done |].
  rewrite HA. congruence.
Qed.

(** The later steps raise errors of other kinds. *)
Lemma call_raises {A} (h : helper A) w e w' :
  call h w = (Raise e, w') → ∃ what, e = CollaboratorError what.
Proof.
  unfold call. destruct (h w) as [[a|what] w1]; intros [= <- <-]; eauto.
Qed.

Lemma for_each_lift_world {A B} (f : A → outcome B) (l : list A) w :
  (for_each (λ x, lift (f x)) l w).2 = w.
Proof.
  induction l as [|x l IH]; cbn [for_each]; [done |].
  unfold bind, lift, ret. destruct (f x) as [y|e]; [| done].
  by destruct (for_each _ l w) as [[ys|e] w1].
Qed.

Lemma for_each_label_raises base (l : list Path) w e w' :
  for_each (λ f, lift (relative_label base f)) l w = (Raise e, w') →
  ∃ msg, e = ValueError msg.
Proof.
  induction l as [|x l IH]; cbn [for_each]; [done |].
  unfold bind, lift, ret, relative_label at 1.
  destruct (relative_to x base); [| intros [= <- _]; eauto].
  destruct (for_each _ l w) as [[ys|e1] w1] eqn:Hl; [done |].
  intros [= <- <-]. eauto.
Qed.

Lemma nested_labels_raises base (l : list Path) w e w' :
  nested_labels base l w = (Raise e, w') → ∃ msg, e = ValueError msg.
Proof.
  unfold nested_labels. intros [Hr | (ls & w1 & _ & Hr)]%bind_raise_inv.
  - by eapply for_each_label_raises.
  - done.
Qed.

Lemma emit_raises s o e :
  Format.emit s o = Raise e → o = Raise e.
Proof. destruct o; [done | by intros [= ->]]. Qed.

Lemma lookup_kw_raises kw key e :
  Format.lookup_kw kw key = Raise e → not_mismatch e.
Proof.
  unfold Format.lookup_kw. destruct (List.find _ kw); [done |].
  destruct (Text.all_chars _ key); by intros [= <-].
Qed.

Lemma format_from_raises kw st fmt e :
  Format.format_from kw st fmt = Raise e → not_mismatch e.
Proof.
  revert st. induction fmt as [|c fmt IH]; intros st; cbn.
  - destruct st; by intros [= <-].
  - destruct st; repeat case_match;
      try (by intros [= <-]);
      try (intros [= <-]; by eauto using lookup_kw_raises);
      try (intros ?%emit_raises); eauto using lookup_kw_raises.
Qed.

Lemma build_source_header_raises fmt iu extra cfiles rfiles ts w e w' :
  build_source_header fmt iu extra cfiles rfiles ts w = (Raise e, w') →
  not_mismatch e.
Proof.
  unfold build_source_header.
  intros [Hr | (t & w1 & _ & Hr)]%bind_raise_inv.
  - destruct ts; [done |]. by unfold OS.now in Hr.
  - apply bind_raise_inv in Hr as [Hr | (t' & w2 & _ & Hr)]; [| done].
    unfold lift in Hr. injection Hr as Hr _.
    by eapply format_from_raises.
Qed.

Lemma merge_and_rewrite_raises filename req_file iu extra pre new w e w' :
  merge_and_rewrite filename req_file iu extra pre new w = (Raise e, w') →
  not_mismatch e.
Proof.
  unfold merge_and_rewrite.
  intros [Hr | (rs & w1 & _ & Hr)]%bind_raise_inv;
    [apply call_raises in Hr as [? ->]; done |].
  apply bind_raise_inv in Hr as [Hr | (cs & w2 & _ & Hr)];
    [apply nested_labels_raises in Hr as [? ->]; done |].
  apply bind_raise_inv in Hr as [Hr | (fs & w3 & _ & Hr)];
    [apply nested_labels_raises in Hr as [? ->]; done |].
  apply bind_raise_inv in Hr as [Hr | (h & w4 & _ & Hr)];
    [by eapply build_source_header_raises |].
  apply call_raises in Hr as [? ->]; done.
Qed.
(** C3, as the code has it.  The mismatch error is raised exactly when
    the manifest is there and the caller gives an index URL that is not
    the one the manifest records; a manifest that records none differs
    from every URL given.  The world is then left as it was. *)
Theorem extend_source_file_mismatch_iff
    working_directory tag_name specifiers extension index_url
    extra_index_urls lookup_index_urls prereleases
    resolve_canonical_names resolve_versions w :
  let filename :=
    build_filename working_directory tag_name extension default_prefix in
  let run :=
    extend_source_file working_directory tag_name specifiers extension
      index_url extra_index_urls lookup_index_urls prereleases
      resolve_canonical_names resolve_versions w in
  ((∃ msg w', run = (Raise (IndexUrlMismatchError msg), w'))
   ↔
   (∃ req_file u,
      RequirementFile_ (to_str filename) w = inl req_file ∧
      is_Some (files w !! to_str filename) ∧
      index_url = Some u ∧
      RequirementFile.index_url req_file ≠ Some u))
  ∧
  (∀ msg w', run = (Raise (IndexUrlMismatchError msg), w') → w' = w).
Proof.
  intros filename run.
  assert (∀ msg w', run = (Raise (IndexUrlMismatchError msg), w') →
          w' = w ∧
          ∃ req_file u,
            RequirementFile_ (to_str filename) w = inl req_file ∧
            is_Some (files w !! to_str filename) ∧
            index_url = Some u ∧
            RequirementFile.index_url req_file ≠ Some u) as Honly.
  { intros msg w' Hrun. unfold run in Hrun.
    destruct (RequirementFile_ (to_str filename) w) as [req_file|what]
      eqn:Hload.
    2: { unfold extend_source_file, bind at 1, call at 1 in Hrun.
         fold filename in Hrun. by rewrite Hload in Hrun. }
    rewrite (extend_source_file_checked _ _ _ _ _ _ _ _ _ _ _ _ Hload)
      in Hrun.
    fold filename in Hrun.
    destruct (check_index_url _ _ _ _) as [checked|e] eqn:Hcheck.
    - apply bind_raise_inv in Hrun as [Hr | (new & w1 & _ & Hr)].
      + by apply call_raises in Hr as [? ?].
      + by apply merge_and_rewrite_raises in Hr.
    - apply return_raise_inj in Hrun as [-> <-]. split; [done |].
      unfold check_index_url in Hcheck.
      destruct (bool_decide (is_Some (files w !! to_str filename)))
        eqn:Hex; [| done].
      destruct index_url as [u|]; [| done].
      destruct (bool_decide (Some u ≠ RequirementFile.index_url req_file))
        eqn:Hne; [| done].
      apply bool_decide_eq_true_1 in Hex, Hne.
      exists req_file, u. split_and!; [done | done | done | congruence]. }
  split; [split |].
  - intros (msg & w' & Hrun). by destruct (Honly msg w' Hrun).
  - intros (req_file & u & Hload & Hex & -> & Hne).
    eexists _, w. by apply extend_source_file_mismatch_raised.
  - intros msg w' Hrun. by destruct (Honly msg w' Hrun).
Qed.

(** The index URL and the extra index URLs the call goes on with. *)
Lemma check_index_url_return file_exists index_url extra req_file checked :
  check_index_url file_exists index_url extra req_file = Return checked →
  checked =
    match index_url with
    | Some u => (Some u, extra)
    | None =>
        if file_exists
        then (RequirementFile.index_url req_file,
              OrderedSet.update extra
                (RequirementFile.extra_index_urls req_file))
        else (None, extra)
    end.
Proof.
  unfold check_index_url.
  destruct file_exists, index_url as [u|]; try by intros [= <-].
  case_bool_decide; by intros [= <-].
Qed.

(** C5.  With no [lookup_index_urls] from the caller, the set handed to
    [build_ireq_set] is the index URL the call goes on with, if there is
    one, together with the extra index URLs it goes on with; when that
    is empty it is the [index_urls] of the manifest.  The index URL and
    the extra ones are the caller's, or, when the caller gives no index
    URL and the manifest is there, the manifest's index URL and the
    caller's extra ones followed by the manifest's. *)
Theorem extend_source_file_lookup_index_urls
    working_directory tag_name specifiers extension index_url
    extra_index_urls prereleases resolve_canonical_names resolve_versions
    w req_file checked :
  let filename :=
    build_filename working_directory tag_name extension default_prefix in
  let file_exists := bool_decide (is_Some (files w !! to_str filename)) in
  let given := OrderedSet.make (default [] extra_index_urls) in
  RequirementFile_ (to_str filename) w = inl req_file →
  check_index_url file_exists index_url given req_file = Return checked →
  let union : gset string :=
    from_option singleton ∅ checked.1 ∪ list_to_set checked.2 in
  let lookup : gset string :=
    if bool_decide (union = ∅) then RequirementFile.index_urls req_file
    else union in
  extend_source_file working_directory tag_name specifiers extension
    index_url extra_index_urls None prereleases resolve_canonical_names
    resolve_versions w
  = bind (call (build_ireq_set specifiers lookup prereleases
                  resolve_canonical_names
                  (resolve_source_dir working_directory) resolve_versions))
         (merge_and_rewrite filename req_file checked.1 checked.2
            prereleases) w
  ∧ checked =
      match index_url with
      | Some u => (Some u, given)
      | None =>
          if file_exists
          then (RequirementFile.index_url req_file,
                OrderedSet.update given
                  (RequirementFile.extra_index_urls req_file))
          else (None, given)
      end.
Proof.
  intros filename file_exists given Hload Hcheck union lookup.
  split; [| by apply check_index_url_return].
  rewrite (extend_source_file_checked _ _ _ _ _ _ _ _ _ _ _ _ Hload).
  fold filename file_exists given. rewrite Hcheck.
  replace (derive_lookup_index_urls None checked.1 checked.2 req_file)
    with lookup; [done |].
  unfold derive_lookup_index_urls, lookup.
  assert ((match checked.1 with Some u => {[u]} | None => ∅ end
           : gset string) = from_option singleton ∅ checked.1) as ->
    by (by destruct checked.1).
  fold union.
  destruct (bool_decide (union = ∅)) eqn:Hempty; cbn [andb]; [| done].
  apply bool_decide_eq_true_1 in Hempty.
  destruct (bool_decide (RequirementFile.index_urls req_file = ∅))
    eqn:Hnone; cbn [negb].
  - apply bool_decide_eq_true_1 in Hnone. by rewrite Hempty, Hnone.
  - rewrite Hempty. by rewrite (left_id_L ∅ (∪)).
Qed.
End index_url_check.

Section index_url_check_runs.
Import Pathlib Scaffold Fixture.

Lemma extend_source_file_index_url_mismatch_witness :
  ∃ w',
    extend_source_file (L := CLocale.locale)
      (C := Demo.collaborators manifest_a resolved_new)
      "/work" "base" ["flask>=2,<4"; "six"] ".in" (Some "https://b")
      None None false true true with_manifest
    = (Raise (IndexUrlMismatchError
                (mismatch_message "https://b" (Some "https://a"))), w') ∧
    w' = with_manifest ∧
    OS.read_bytes (mkPath "/" ["work"; "src"; "base.in"]) w'
    = OS.read_bytes (mkPath "/" ["work"; "src"; "base.in"]) with_manifest.
Proof.
  apply (extend_source_file_index_url_mismatch (L := CLocale.locale)
           (C := Demo.collaborators manifest_a resolved_new)
           "/work" "base" ["flask>=2,<4"; "six"] ".in"
           "https://a" "https://b" None None false true true
           with_manifest manifest_a).
  - by vm_compute; eexists.
  - reflexivity.
  - reflexivity.
  - by vm_compute.
Defined.

(** The manifest is there and records no index URL; the caller gives
    one; the mismatch error is raised all the same. *)
Lemma extend_source_file_adopts_given_index_url_counterexample :
  is_Some (files with_manifest !! "/work/src/base.in") ∧
  RequirementFile.index_url manifest_plain = None ∧
  extend_source_file (L := CLocale.locale)
    (C := Demo.collaborators manifest_plain resolved_new)
    "/work" "base" ["flask>=2,<4"; "six"] ".in" (Some "https://b")
    None None false true true with_manifest
  = (Raise (IndexUrlMismatchError (mismatch_message "https://b" None)),
     with_manifest).
Proof. split_and!; [by vm_compute; eexists | done | by vm_compute]. Qed.

Lemma extend_source_file_mismatch_iff_witness :
  ∃ msg w',
    extend_source_file (L := CLocale.locale)
      (C := Demo.collaborators manifest_plain resolved_new)
      "/work" "base" ["flask>=2,<4"; "six"] ".in" (Some "https://b")
      None None false true true with_manifest
    = (Raise (IndexUrlMismatchError msg), w').
Proof.
  apply (proj1 (extend_source_file_mismatch_iff (L := CLocale.locale)
                  (C := Demo.collaborators manifest_plain resolved_new)
                  "/work" "base" ["flask>=2,<4"; "six"] ".in"
                  (Some "https://b") None None false true true
                  with_manifest)).
  exists manifest_plain, "https://b".
  split_and!; [done | by vm_compute; eexists | done | done].
Defined.
End index_url_check_runs.

(** ** Text *)

Section text_facts.
Import Text.

Lemma append_cons (x : ascii) (a b : string) :
  String x a +:+ b = String x (a +:+ b).
Proof. reflexivity. Qed.

Lemma append_nil_r (s : string) : s +:+ EmptyString = s.
Proof. induction s as [|c s IH]; [done | by rewrite append_cons, IH]. Qed.

Lemma append_assoc (a b c : string) : (a +:+ b) +:+ c = a +:+ (b +:+ c).
Proof. induction a as [|x a IH]; [done | by rewrite !append_cons, IH]. Qed.

Lemma unlines_cons (l : string) (ls : list string) :
  unlines (l :: ls) = l +:+ nl +:+ unlines ls.
Proof. reflexivity. Qed.

Lemma unlines_app (a b : list string) :
  unlines (a ++ b) = unlines a +:+ unlines b.
Proof.
  induction a as [|l a IH]; [done |].
  cbn [app]. by rewrite !unlines_cons, IH, !append_assoc.
Qed.

(** A joined list with a line break after it is the list of its lines. *)
Lemma join_nl_unlines (l : string) (ls : list string) :
  join nl (l :: ls) +:+ nl = unlines (l :: ls).
Proof.
  revert l. induction ls as [|l' ls IH]; intros l.
  - cbn [join String.concat]. by rewrite unlines_cons, append_nil_r.
  - change (join nl (l :: l' :: ls)) with (l +:+ nl +:+ join nl (l' :: ls)).
    by rewrite !append_assoc, IH, unlines_cons.
Qed.

(** [rstrip] leaves nothing or something that ends off white space. *)
Lemma rstrip_cons_keep (c : ascii) (s : string) :
  is_space c = false → rstrip (String c s) = String c (rstrip s).
Proof. intros Hc. cbn [rstrip]. rewrite Hc. by destruct (rstrip s). Qed.

Lemma rstrip_app (a b : string) :
  rstrip (a +:+ b) =
    match rstrip b with
    | EmptyString => rstrip a
    | String _ _ => a +:+ rstrip b
    end.
Proof.
  induction a as [|c a IH].
  - change (EmptyString +:+ b) with b. destruct (rstrip b); reflexivity.
  - rewrite append_cons. cbn [rstrip]. rewrite IH.
    destruct (rstrip b) as [|d r]; [done |].
    rewrite append_cons.
    destruct (a +:+ String d r) eqn:Happ; [by destruct a | done].
Qed.

Lemma rstrip_nl : rstrip nl = EmptyString.
Proof. reflexivity. Qed.

Lemma one_trailing_newline_cons (c : ascii) (s : string) :
  truthy s = true →
  one_trailing_newline (String c s +:+ nl) = one_trailing_newline (s +:+ nl).
Proof. destruct s as [|d s]; [done |]. intros _. by destruct s. Qed.

(** What [rstrip] leaves, followed by a line break, ends with exactly
    that one line break. *)
Lemma one_trailing_newline_rstrip (s : string) :
  one_trailing_newline (rstrip s +:+ nl) = true.
Proof.
  induction s as [|c s IH]; [done |].
  cbn [rstrip]. destruct (rstrip s) as [|d r] eqn:Hr.
  - destruct (is_space c) eqn:Hc; [done |].
    cbn. by destruct c as [[] [] [] [] [] [] [] []].
  - by rewrite one_trailing_newline_cons.
Qed.

Lemma split_single_line (l rest : string) :
  single_line l = true →
  split LF (l +:+ nl +:+ rest) = l :: split LF rest.
Proof.
  induction l as [|c l IH]; [done |].
  intros [Hc Hl]%andb_true_iff. rewrite append_cons. cbn [split].
  apply negb_true_iff in Hc. rewrite Hc, (IH Hl). done.
Qed.

Lemma split_unlines (ls : list string) :
  Forall (λ l, single_line l = true) ls →
  split LF (unlines ls) = ls ++ [EmptyString].
Proof.
  induction 1 as [|l ls Hl _ IH]; [done |].
  by rewrite unlines_cons, (split_single_line _ _ Hl), IH.
Qed.

(** The lines of [unlines ls] are [ls], when none holds a line break. *)
Lemma lines_unlines (ls : list string) :
  Forall (λ l, single_line l = true) ls → lines (unlines ls) = ls.
Proof.
  intros Hls. unfold lines. rewrite (split_unlines _ Hls), last_snoc.
  by rewrite removelast_last.
Qed.

(** Without a blank line there are no two blank lines in a row. *)
Lemma no_blank_no_double_blank (ls : list string) :
  Forall (λ l, blank l = false) ls → no_double_blank ls = true.
Proof.
  induction 1 as [|l ls Hl _ IH]; [done |].
  cbn [no_double_blank]. destruct ls as [|l' ls]; [done |].
  by rewrite Hl, IH.
Qed.

Lemma snoc_or_nil (ls : list string) :
  ls = [] ∨ ∃ before l, ls = before ++ [l].
Proof. induction ls using rev_ind; eauto. Qed.

Lemma single_line_app (a b : string) :
  single_line (a +:+ b) = single_line a && single_line b.
Proof.
  induction a as [|c a IH]; [done |].
  rewrite append_cons. unfold single_line in *. cbn [all_chars].
  by rewrite IH, andb_assoc.
Qed.

Lemma single_line_rstrip (s : string) :
  single_line s = true → single_line (rstrip s) = true.
Proof.
  induction s as [|c s IH]; [done |].
  intros [Hc Hs]%andb_true_iff. cbn [rstrip].
  destruct (rstrip s) as [|d r].
  - destruct (is_space c); [done |]. unfold single_line. cbn. by rewrite Hc.
  - change (single_line (String c (String d r)))
      with (negb (Ascii.eqb c LF) && single_line (String d r)).
    by rewrite Hc, (IH Hs).
Qed.
End text_facts.

(** ** [build_source_header] under the default template *)

Section header_shape.
Import Text Format Scaffold Header.
Context {L : Locale}.

Lemma emit_emit (a b : string) (o : outcome string) :
  emit a (emit b o) = emit (a +:+ b) o.
Proof. destruct o; [cbn; by rewrite append_assoc | done]. Qed.

(** Text without braces is copied. *)
Lemma format_from_copies kw (a b : string) :
  brace_free a = true →
  format_from kw Literal (a +:+ b) = emit a (format_from kw Literal b).
Proof.
  induction a as [|c a IH].
  - intros _. change (EmptyString +:+ b) with b.
    by destruct (format_from kw Literal b).
  - intros [Hc Ha]%andb_true_iff. apply andb_true_iff in Hc as [Ho Hcl].
    apply negb_true_iff in Ho, Hcl.
    rewrite append_cons. cbn [format_from]. rewrite Ho, Hcl, (IH Ha).
    by rewrite emit_emit.
Qed.

(** The four fields of the default template are replaced in turn. *)
Lemma format_fields (c1 c2 c3 c4 : string) :
  format_from
    [("nested_cfiles", c1); ("nested_rfiles", c2); ("index_url", c3);
     ("extra_index_urls", c4)] Literal
    (nl +:+ "{nested_cfiles}" +:+ "{nested_rfiles}" +:+ "{index_url}" +:+
     "{extra_index_urls}" +:+ nl)
  = Return (nl +:+ c1 +:+ c2 +:+ c3 +:+ c4 +:+ nl).
Proof. reflexivity. Qed.

Lemma terminate_cons (k v : string) (d : list (string * string)) :
  terminate ((k, v) :: d) = (k, ended v) :: terminate d.
Proof. unfold terminate, ended. cbn. by destruct (truthy v). Qed.

Lemma header_components_ended iu extra cfiles rfiles :
  header_components iu extra cfiles rfiles =
    [("nested_cfiles",
      ended (from_option
               (λ fs, join nl (map (λ f, "-c " +:+ f) fs)) EmptyString cfiles));
     ("nested_rfiles",
      ended (from_option
               (λ fs, join nl (map (λ f, "-r " +:+ f) fs)) EmptyString rfiles));
     ("index_url",
      ended (from_option
               (λ u, join " " ["--index-url"; strip u]) EmptyString iu));
     ("extra_index_urls",
      ended (from_option
               (λ us, join nl (map (λ u, join " " ["--extra-index-url"; u]) us))
               EmptyString extra))].
Proof.
  unfold header_components.
  destruct iu, extra, cfiles, rfiles;
    cbn [set_item String.eqb Ascii.eqb Bool.eqb andb];
    rewrite !terminate_cons; reflexivity.
Qed.

(** A collection renders as its lines, an empty one as nothing. *)
Lemma ended_join (f : string → string) (l : list string) :
  (∀ x, truthy (f x) = true) →
  ended (join nl (map f l)) = unlines (map f l).
Proof.
  intros Hf. destruct l as [|x l]; [done |].
  cbn [map]. rewrite <- join_nl_unlines. unfold ended.
  replace (truthy (join nl (f x :: map f l))) with true; [done |].
  specialize (Hf x). destruct (f x) as [|c s]; [done |].
  by destruct (map f l).
Qed.

Lemma ended_collection (prefix : string) (l : option (list string)) :
  truthy prefix = true →
  ended (from_option (λ fs, join nl (map (λ f, prefix +:+ f) fs))
           EmptyString l)
  = unlines (map (λ f, prefix +:+ f) (default [] l)).
Proof.
  intros Hp. destruct l as [l|]; [| done].
  apply ended_join. intros x. by destruct prefix.
Qed.

Lemma ended_index_url (iu : option string) :
  ended (from_option (λ u, join " " ["--index-url"; strip u]) EmptyString iu)
  = unlines (from_option (λ u, ["--index-url " +:+ strip u]) [] iu).
Proof.
  destruct iu as [u|]; [| done].
  cbn [from_option]. rewrite unlines_cons, append_nil_r. reflexivity.
Qed.

(** The text the template formats to, before it is stripped. *)
Lemma format_default_header t iu extra cfiles rfiles :
  copied_clock t →
  format (strftime t DEFAULT_HEADER)
    (header_components iu extra cfiles rfiles)
  = Return (unlines (all_lines t iu extra cfiles rfiles) +:+ nl).
Proof.
  intros Hclock. unfold format.
  change (strftime t DEFAULT_HEADER) with
    (("# -*- mode: requirementstxt -*-" +:+ nl +:+
      "# vim: set ft=requirements" +:+ nl +:+
      "# Generated by reqwire on ") +:+
     conversion "c"%char t +:+
     (nl +:+ "{nested_cfiles}" +:+ "{nested_rfiles}" +:+ "{index_url}" +:+
      "{extra_index_urls}" +:+ nl)).
  rewrite format_from_copies by reflexivity.
  rewrite (format_from_copies _ _ _ Hclock).
  rewrite header_components_ended, format_fields.
  rewrite (ended_collection "-c " cfiles eq_refl).
  rewrite (ended_collection "-r " rfiles eq_refl), ended_index_url.
  replace (ended
             (from_option
                (λ us, join nl (map (λ u, join " " ["--extra-index-url"; u]) us))
                EmptyString extra))
    with (unlines (map (λ u, "--extra-index-url " +:+ u) (default [] extra)))
    by (symmetry; apply (ended_collection "--extra-index-url " extra eq_refl)).
  cbn [emit]. f_equal.
  unfold all_lines, directives.
  rewrite !unlines_app, !unlines_cons. unfold banner.
  rewrite !append_assoc. reflexivity.
Qed.
Lemma starts_black_lstrip (s : string) :
  starts_black s = true → lstrip s = s.
Proof.
  destruct s as [|c s]; [done |]. cbn. by intros ->%negb_true_iff.
Qed.

Lemma starts_black_rstrip (s : string) :
  starts_black s = true → starts_black (rstrip s) = true.
Proof.
  destruct s as [|c s]; [done |]. intros Hc.
  rewrite rstrip_cons_keep; [done | by apply negb_true_iff].
Qed.

Lemma starts_black_not_blank (s : string) :
  starts_black s = true → blank s = false.
Proof.
  destruct s as [|c s]; [done |]. cbn. by intros ->%negb_true_iff.
Qed.

Lemma starts_black_app (a b : string) :
  starts_black a = true → starts_black (a +:+ b) = true.
Proof. by destruct a. Qed.

Lemma rstrip_last_snoc (before : list string) (l : string) :
  rstrip_last (before ++ [l]) = before ++ [rstrip l].
Proof.
  unfold rstrip_last. by rewrite reverse_snoc, reverse_involutive.
Qed.

(** Stripping the lines and the empty line after them takes the white
    space off the end of the last line and nothing else. *)
Lemma strip_unlines (ls : list string) :
  ls ≠ [] →
  Forall (λ l, starts_black l = true) ls →
  strip (unlines ls +:+ nl) +:+ nl = unlines (rstrip_last ls).
Proof.
  intros Hne Hls. unfold strip.
  rewrite starts_black_lstrip.
  2: { destruct Hls as [|l ls Hl _]; [done |].
       rewrite unlines_cons, !append_assoc. by apply starts_black_app. }
  destruct (snoc_or_nil ls) as [-> | (before & l & ->)]; [done |].
  apply Forall_app in Hls as [_ Hl]. apply Forall_inv in Hl.
  rewrite rstrip_last_snoc, !unlines_app, !unlines_cons.
  cbn [unlines foldr]. rewrite !append_nil_r.
  rewrite rstrip_app, rstrip_nl, rstrip_app, rstrip_app, rstrip_nl.
  apply starts_black_rstrip in Hl.
  destruct (rstrip l) as [|c r]; [done |]. by rewrite !append_assoc.
Qed.

Lemma all_lines_start_black t iu extra cfiles rfiles :
  Forall (λ l, starts_black l = true) (all_lines t iu extra cfiles rfiles).
Proof.
  unfold all_lines, directives.
  apply Forall_app; split; [by repeat constructor |].
  rewrite !Forall_app, !Forall_fmap. split_and!.
  - apply Forall_forall. by intros x _.
  - apply Forall_forall. by intros x _.
  - destruct iu; [by apply Forall_singleton | constructor].
  - apply Forall_forall. by intros x _.
Qed.

(** The header of the default template: the two mode lines, the banner
    and the directive lines, the last one stripped at its end. *)
Theorem build_source_header_default ts iu extra cfiles rfiles w :
  let t := default (clock w) ts in
  copied_clock t →
  build_source_header None iu extra cfiles rfiles ts w
  = (Return (unlines (rstrip_last (all_lines t iu extra cfiles rfiles))), w).
Proof.
  intros t Hclock. unfold build_source_header.
  assert ((match ts with Some t' => ret t' | None => OS.now end) w
          = (Return t, w)) as Hts by (by destruct ts).
  rewrite (bind_return _ _ _ _ _ Hts). cbn [default].
  unfold bind, lift. rewrite (format_default_header _ _ _ _ _ Hclock).
  unfold ret. rewrite strip_unlines; [done | done |].
  apply all_lines_start_black.
Qed.

Lemma all_lines_single t iu extra cfiles rfiles :
  one_line_each t iu extra cfiles rfiles →
  Forall (λ l, single_line l = true) (all_lines t iu extra cfiles rfiles).
Proof.
  intros (Hc & Hcf & Hrf & Hiu & Hex). unfold all_lines, directives.
  repeat first [apply Forall_app; split | apply Forall_cons; split];
    try (by constructor); try reflexivity.
  - unfold banner. by rewrite single_line_app, Hc.
  - apply Forall_fmap. eapply Forall_impl; [exact Hcf |].
    intros f Hf. cbn. by rewrite single_line_app, Hf.
  - apply Forall_fmap. eapply Forall_impl; [exact Hrf |].
    intros f Hf. cbn. by rewrite single_line_app, Hf.
  - destruct iu as [u|]; [| constructor].
    apply Forall_singleton. cbn in Hiu |- *. by rewrite single_line_app, Hiu.
  - apply Forall_fmap. eapply Forall_impl; [exact Hex |].
    intros f Hf. cbn. by rewrite single_line_app, Hf.
Qed.

Lemma rstrip_last_Forall (P : string → Prop) (ls : list string) :
  (∀ l, P l → P (rstrip l)) → Forall P ls → Forall P (rstrip_last ls).
Proof.
  intros HP Hls.
  destruct (snoc_or_nil ls) as [-> | (before & l & ->)]; [done |].
  rewrite rstrip_last_snoc. apply Forall_app in Hls as [Hb Hl].
  apply Forall_app. split; [done |].
  apply Forall_inv in Hl. apply Forall_singleton. auto.
Qed.

(** Whatever the template, a header ends with exactly one line break. *)
Lemma build_source_header_one_trailing_newline
    fmt iu extra cfiles rfiles ts w header w' :
  build_source_header fmt iu extra cfiles rfiles ts w = (Return header, w') →
  one_trailing_newline header = true.
Proof.
  unfold build_source_header.
  intros (t & w1 & _ & Hrest)%bind_return_inv.
  apply bind_return_inv in Hrest as (text & w2 & _ & Hret).
  injection Hret as <- _. apply one_trailing_newline_rstrip.
Qed.

(** C6, as the code has it.  Under the default template, whichever of
    the four components are given, when the rendering of [%c] is copied
    by [str.format] and neither it nor a file name, the stripped index
    URL or an extra index URL holds a line break, the header has no
    blank line at all, so no two in a row, and it ends with exactly one
    line break. *)
Theorem build_source_header_no_double_blank_lines
    ts iu extra cfiles rfiles w :
  let t := default (clock w) ts in
  copied_clock t →
  one_line_each t iu extra cfiles rfiles →
  ∃ header,
    build_source_header None iu extra cfiles rfiles ts w
    = (Return header, w) ∧
    Forall (λ l, blank l = false) (lines header) ∧
    no_double_blank (lines header) = true ∧
    one_trailing_newline header = true.
Proof.
  intros t Hclock Hone. eexists. split; [by apply build_source_header_default |].
  fold t.
  assert (Forall (λ l, blank l = false)
            (lines (unlines (rstrip_last (all_lines t iu extra cfiles rfiles)))))
    as Hblank.
  { rewrite lines_unlines.
    - eapply Forall_impl; [| apply starts_black_not_blank].
      apply rstrip_last_Forall;
        [apply starts_black_rstrip | apply all_lines_start_black].
    - apply rstrip_last_Forall;
        [apply single_line_rstrip | by apply all_lines_single]. }
  split_and!; [done | by apply no_blank_no_double_blank |].
  eapply build_source_header_one_trailing_newline.
  by apply build_source_header_default.
Qed.
End header_shape.

Section header_runs.
Import Text Scaffold Header Fixture.

Lemma build_source_header_no_double_blank_lines_witness :
  ∃ header,
    build_source_header (L := CLocale.locale) None (Some " https://a ")
      (Some ["https://x"]) (Some ["common.in"]) None (Some tuesday) bare
    = (Return header, bare) ∧
    Forall (λ l, blank l = false) (lines header) ∧
    no_double_blank (lines header) = true ∧
    one_trailing_newline header = true.
Proof.
  apply (build_source_header_no_double_blank_lines (L := CLocale.locale)
           (Some tuesday) (Some " https://a ") (Some ["https://x"])
           (Some ["common.in"]) None bare).
  - by vm_compute.
  - split_and!; cbn; by repeat constructor.
Defined.

(** A nested file whose name is not empty and holds two empty lines:
    the header has two blank lines in a row. *)
Lemma build_source_header_no_double_blank_lines_counterexample :
  truthy broken_name = true ∧
  ∃ header,
    build_source_header (L := CLocale.locale) None None None
      (Some [broken_name]) None (Some tuesday) bare
    = (Return header, bare) ∧
    no_double_blank (lines header) = false.
Proof. split; [done |]. eexists. split; [by vm_compute | by vm_compute]. Qed.
End header_runs.

(** ** [init_source_file] *)

Section init_source_file_facts.
Import Text Pathlib Scaffold Header.
Context {L : Locale}.

Lemma clock_set_node p n w : clock (OS.set_node p n w) = clock w.
Proof. reflexivity. Qed.

Lemma lookup_set_node p n w : OS.lookup_path p (OS.set_node p n w) = Some n.
Proof. unfold OS.lookup_path, OS.set_node. cbn. apply lookup_insert_eq. Qed.


Lemma refused_world p r w w' : OS.refused p w = (r, w') → w' = w.
Proof. unfold OS.refused. destruct (faults w !! _); by intros [= _ <-]. Qed.

Lemma creatable_world p r w w' : OS.creatable p w = (r, w') → w' = w.
Proof.
  unfold OS.creatable. destruct (OS.lookup_path _ w) as [[d|]|];
    try (by intros [= _ <-]). apply refused_world.
Qed.

(** Opening for writing with truncation returns only by leaving an
    empty file; nothing else in the world changes. *)
Lemma os_open_creat_trunc_return p w w' :
  OS.os_open_creat p true w = (Return (), w') →
  w' = OS.set_node p (File []) w.
Proof.
  unfold OS.os_open_creat. destruct (OS.lookup_path p w) as [[d|]|].
  - intros (u & w1 & Hr & [= <-])%bind_return_inv.
    by apply refused_world in Hr as ->.
  - done.
  - intros (u & w1 & Hr & [= <-])%bind_return_inv.
    by apply creatable_world in Hr as ->.
Qed.

(** What [touch] and the handler around it leave of the clock. *)
Lemma os_open_creat_clock p trunc r w w' :
  OS.os_open_creat p trunc w = (r, w') → clock w' = clock w.
Proof.
  unfold OS.os_open_creat, bind.
  destruct (OS.lookup_path p w) as [[d|]|].
  - destruct (OS.refused p w) as [[u|e] w1] eqn:Hr;
      apply refused_world in Hr as ->; intros [= _ <-]; [| done].
    by destruct trunc.
  - by intros [= _ <-].
  - destruct (OS.creatable p w) as [[u|e] w1] eqn:Hr;
      apply creatable_world in Hr as ->; by intros [= _ <-].
Qed.

Lemma touch_clock p mode r w w' :
  OS.touch p mode w = (r, w') → clock w' = clock w.
Proof.
  unfold OS.touch, OS.os_utime.
  destruct (OS.lookup_path p w) as [n|].
  - destruct (OS.refused p w) as [[u|e] w1] eqn:Hr;
      apply refused_world in Hr as ->; [by intros [= _ <-] |].
    apply os_open_creat_clock.
  - apply os_open_creat_clock.
Qed.

Lemma guarded_touch_clock p mode overwrite r w w' :
  try_except_OSError (OS.touch p mode)
    (λ e, if negb overwrite then raise e else ret ()) w = (r, w') →
  clock w' = clock w.
Proof.
  unfold try_except_OSError.
  destruct (OS.touch p mode w) as [[u|e] w1] eqn:Ht;
    apply touch_clock in Ht; [by intros [= _ <-] |].
  destruct (is_OSError e); [| by intros [= _ <-]].
  destruct overwrite; by intros [= _ <-].
Qed.

(** When [init_source_file] returns, it returns the path it built, the
    caller gave no encoding and no error handler, and the file holds the
    header rendered with no argument, encoded, and nothing else. *)
Lemma init_source_file_return
    working_directory tag_name extension index_url extra_index_urls
    encoding errors mode overwrite w p w' :
  let filename :=
    build_filename working_directory tag_name extension default_prefix in
  copied_clock (clock w) →
  init_source_file working_directory tag_name extension index_url
    extra_index_urls encoding errors mode overwrite w = (Return p, w') →
  p = filename ∧ encoding = None ∧ errors = None ∧
  OS.read_bytes filename w' = Some (encode_utf8 (fresh_header (clock w))).
Proof.
  intros filename Hclock. unfold init_source_file. fold filename.
  intros (u & w1 & Htouch & Hrest)%bind_return_inv.
  apply guarded_touch_clock in Htouch as Hc1.
  apply bind_return_inv in Hrest as (f & w2 & Hopen & Hrest).
  unfold OS.io_open_wb in Hopen.
  destruct encoding; [done |]. destruct errors; [done |].
  apply bind_return_inv in Hopen as ([] & w2' & Hopen & [= <- <-]).
  apply os_open_creat_trunc_return in Hopen as ->.
  unfold bind at 1 in Hrest.
  rewrite build_source_header_default in Hrest
    by (cbn [default]; rewrite clock_set_node, Hc1; exact Hclock).
  cbn [default] in Hrest. rewrite clock_set_node, Hc1 in Hrest.
  fold (fresh_header (clock w)) in Hrest.
  unfold bind at 1, OS.write in Hrest. rewrite lookup_set_node in Hrest.
  apply return_inj in Hrest as [<- <-]. split_and!; try done.
  unfold OS.read_bytes. by rewrite lookup_set_node.
Qed.

Lemma fresh_header_lines (t : datetime) :
  single_line (conversion "c"%char t) = true →
  lines (fresh_header t) =
    ["# -*- mode: requirementstxt -*-"; "# vim: set ft=requirements";
     rstrip (banner t)].
Proof.
  intros Hc. unfold fresh_header. rewrite lines_unlines; [done |].
  apply rstrip_last_Forall; [apply single_line_rstrip |].
  apply all_lines_single. by split_and!; try constructor.
Qed.

(** C9.  [init_source_file] does the same whatever [index_url] and
    [extra_index_urls] are: the outcome and the world left are those of
    any other pair of values.  When it returns, the file holds the
    encoded header, whose lines (the two mode lines and the banner) are
    neither an [--index-url] nor an [--extra-index-url] line. *)
Theorem init_source_file_ignores_index_arguments
    working_directory tag_name extension index_url extra_index_urls
    index_url' extra_index_urls' encoding errors mode overwrite w :
  init_source_file working_directory tag_name extension index_url
    extra_index_urls encoding errors mode overwrite w
  = init_source_file working_directory tag_name extension index_url'
      extra_index_urls' encoding errors mode overwrite w
  ∧
  ∀ p w',
    copied_clock (clock w) →
    single_line (conversion "c"%char (clock w)) = true →
    init_source_file working_directory tag_name extension index_url
      extra_index_urls encoding errors mode overwrite w = (Return p, w') →
    ∃ header,
      OS.read_bytes p w' = Some (encode_utf8 header) ∧
      Forall (λ l, starts_with "--index-url" l = false ∧
                   starts_with "--extra-index-url" l = false)
             (lines header).
Proof.
  split; [reflexivity |]. intros p w' Hclock Hline Hrun.
  apply init_source_file_return in Hrun as (-> & _ & _ & Hbytes); [| done].
  exists (fresh_header (clock w)). split; [done |].
  rewrite (fresh_header_lines _ Hline).
  constructor; [done |]. constructor; [done |].
  constructor; [| constructor].
  unfold banner. by rewrite append_cons, rstrip_cons_keep.
Qed.

(** C2, what the code does.  The manifest path holds a file and the
    system does not refuse to change it; no encoding and no error
    handler are given.  Then [init_source_file] returns the path and the
    file holds the header alone, whether [overwrite] is set or not:
    [touch] does not fail on a file that is there. *)
Theorem init_source_file_rewrites_existing_file
    working_directory tag_name extension index_url extra_index_urls
    mode overwrite w data :
  let filename :=
    build_filename working_directory tag_name extension default_prefix in
  files w !! to_str filename = Some (File data) →
  faults w !! to_str filename = None →
  copied_clock (clock w) →
  ∃ w',
    init_source_file working_directory tag_name extension index_url
      extra_index_urls None None mode overwrite w = (Return filename, w') ∧
    OS.read_bytes filename w' = Some (encode_utf8 (fresh_header (clock w))).
Proof.
  intros filename Hfile Hok Hclock.
  assert (OS.touch filename mode w = (Return (), w)) as Htouch.
  { unfold OS.touch, OS.os_utime, OS.lookup_path. rewrite Hfile.
    unfold OS.refused. by rewrite Hok. }
  assert (OS.io_open_wb filename None None w
          = (Return filename, OS.set_node filename (File []) w)) as Hopen.
  { unfold OS.io_open_wb, bind, OS.os_open_creat, OS.lookup_path.
    rewrite Hfile. unfold bind, OS.refused. by rewrite Hok. }
  eexists. split.
  - unfold init_source_file. fold filename.
    unfold bind at 1, try_except_OSError. rewrite Htouch.
    unfold bind at 1. rewrite Hopen.
    unfold bind at 1. rewrite build_source_header_default by done.
    unfold bind at 1, OS.write. rewrite lookup_set_node.
    reflexivity.
  - unfold OS.read_bytes. by rewrite lookup_set_node.
Qed.
End init_source_file_facts.

Section init_source_file_runs.
Import Text Pathlib Scaffold Header Fixture.

(** The manifest is there with a requirement in it and [overwrite] is
    not set: the call returns and the requirement is gone. *)
Lemma init_source_file_rewrites_existing_file_witness :
  ∃ w',
    init_source_file (L := CLocale.locale) "/work" "base" ".in" None None
      None None 438 false with_manifest
    = (Return (mkPath "/" ["work"; "src"; "base.in"]), w') ∧
    OS.read_bytes (mkPath "/" ["work"; "src"; "base.in"]) w'
    = Some (encode_utf8 (fresh_header (L := CLocale.locale) tuesday)).
Proof.
  apply (init_source_file_rewrites_existing_file (L := CLocale.locale)
           "/work" "base" ".in" None None 438 false with_manifest
           old_content).
  - by vm_compute.
  - by vm_compute.
  - by vm_compute.
Defined.

Lemma init_source_file_ignores_index_arguments_witness :
  let run :=
    init_source_file (L := CLocale.locale) "/work" "base" ".in"
      (Some "https://a") (Some ["https://x"]) None None 438 true
      with_manifest in
  ∃ header,
    OS.read_bytes (mkPath "/" ["work"; "src"; "base.in"]) run.2
    = Some (encode_utf8 header) ∧
    Forall (λ l, starts_with "--index-url" l = false ∧
                 starts_with "--extra-index-url" l = false)
           (lines header).
Proof.
  intros run.
  apply (proj2 (init_source_file_ignores_index_arguments
                  (L := CLocale.locale) "/work" "base" ".in"
                  (Some "https://a") (Some ["https://x"]) None None
                  None None 438 true with_manifest)).
  - by vm_compute.
  - by vm_compute.
  - by vm_compute.
Defined.
End init_source_file_runs.

(** ** [OrderedSet] *)

Section ordered_set.

Lemma update_snoc (s l : list string) (x : string) :
  OrderedSet.update s (l ++ [x]) = OrderedSet.add (OrderedSet.update s l) x.
Proof. unfold OrderedSet.update. by rewrite foldl_snoc. Qed.

Lemma elem_of_add (s : list string) (x y : string) :
  y ∈ OrderedSet.add s x ↔ y ∈ s ∨ y = x.
Proof.
  unfold OrderedSet.add. case_decide as Hin.
  - split; [by left | intros [? | ->]; done].
  - rewrite elem_of_app, list_elem_of_singleton. done.
Qed.

Lemma NoDup_add (s : list string) (x : string) :
  NoDup s → NoDup (OrderedSet.add s x).
Proof.
  intros Hs. unfold OrderedSet.add. case_decide as Hin; [done |].
  apply NoDup_app. split_and!; [done | | apply NoDup_singleton].
  intros y Hy ->%list_elem_of_singleton. done.
Qed.

Lemma elem_of_update (s l : list string) (y : string) :
  y ∈ OrderedSet.update s l ↔ y ∈ s ∨ y ∈ l.
Proof.
  induction l as [|x l IH] using rev_ind.
  - cbn. rewrite elem_of_nil. tauto.
  - rewrite update_snoc, elem_of_add, IH, elem_of_app,
      list_elem_of_singleton. tauto.
Qed.

Lemma NoDup_update (s l : list string) :
  NoDup s → NoDup (OrderedSet.update s l).
Proof.
  intros Hs. induction l as [|x l IH] using rev_ind; [done |].
  rewrite update_snoc. by apply NoDup_add.
Qed.

Lemma filter_add (z : string) (s : list string) (x : string) :
  filter (λ y, y ≠ z) (OrderedSet.add s x) =
    if decide (x = z) then filter (λ y, y ≠ z) s
    else OrderedSet.add (filter (λ y, y ≠ z) s) x.
Proof.
  unfold OrderedSet.add. destruct (decide (x = z)) as [-> | Hxz].
  - case_decide as Hin; [done |].
    rewrite filter_app, filter_cons, filter_nil.
    rewrite decide_False by (by intros ?). by rewrite app_nil_r.
  - case_decide as Hin.
    + rewrite decide_True; [done |]. by apply list_elem_of_filter.
    + rewrite filter_app, filter_cons, filter_nil.
      rewrite decide_True by done.
      rewrite decide_False; [done |].
      by intros [_ ?]%list_elem_of_filter.
Qed.

Lemma update_cons_first (x : string) (l : list string) :
  OrderedSet.update [x] l
  = x :: filter (λ y, y ≠ x) (OrderedSet.update [] l).
Proof.
  induction l as [|z l IH] using rev_ind; [done |].
  rewrite !update_snoc, filter_add, IH.
  unfold OrderedSet.add at 1. case_decide as Hz.
  - case_decide as Hzx; [done |].
    apply elem_of_cons in Hz as [-> | Hz]; [done |].
    unfold OrderedSet.add. by rewrite decide_True.
  - case_decide as Hzx; [subst; by destruct Hz; left |].
    unfold OrderedSet.add. rewrite decide_False; [done |].
    intros Hin. apply Hz. by right.
Qed.

(** [OrderedSet(l)] keeps each element where it first stands. *)
Lemma make_first_occurrences (l : list string) :
  OrderedSet.make l = first_occurrences l.
Proof.
  unfold OrderedSet.make.
  induction l as [|x l IH]; [done |].
  cbn [first_occurrences]. rewrite <- IH.
  change (OrderedSet.update [] (x :: l)) with (OrderedSet.update [x] l).
  apply update_cons_first.
Qed.

Lemma NoDup_make (l : list string) : NoDup (OrderedSet.make l).
Proof. apply NoDup_update, NoDup_nil_2. Qed.

Lemma elem_of_make (l : list string) (y : string) :
  y ∈ OrderedSet.make l ↔ y ∈ l.
Proof. unfold OrderedSet.make. rewrite elem_of_update, elem_of_nil. tauto. Qed.
End ordered_set.

(** ** [extend_source_file]: what a call that returns has done *)

Section extend_returns.
Import Text Format Pathlib Scaffold Header.
Context {L : Locale} {C : Collaborators}.

Lemma call_return {A} (h : helper A) w a w' :
  call h w = (Return a, w') → h w = (inl a, w').
Proof.
  unfold call. destruct (h w) as [[a'|what] w1]; by intros [= <- <-].
Qed.

Lemma strip_prefix_Some (pre l rest : list string) :
  strip_prefix pre l = Some rest → l = pre ++ rest.
Proof.
  revert l. induction pre as [|x pre IH]; intros l; cbn.
  - by intros [= ->].
  - destruct l as [|y l]; [done |].
    destruct (String.eqb_spec x y) as [-> | _]; [| done].
    by intros ->%IH.
Qed.

(** The label [relative_to] gives leads from [base] to the file. *)
Lemma relative_label_return (base f : Path) (label : string) :
  relative_label base f = Return label → label_from base f label.
Proof.
  unfold relative_label, relative_to.
  destruct (String.eqb_spec (root f) (root base)) as [Hroot | _]; [| done].
  destruct (strip_prefix (parts base) (parts f)) as [rest|] eqn:Hrest;
    [| done].
  cbn. intros [= <-]. exists (mkPath EmptyString rest).
  apply strip_prefix_Some in Hrest.
  split_and!; [done | | done].
  destruct f as [r ps]. cbn in *. by subst.
Qed.

Lemma for_each_label_return base (l : list Path) w labels w' :
  for_each (λ f, lift (relative_label base f)) l w = (Return labels, w') →
  w' = w ∧ Forall2 (label_from base) l labels.
Proof.
  revert labels. induction l as [|f l IH]; intros labels; cbn [for_each].
  - intros [<- <-]%return_inj. by split; [| constructor].
  - intros (y & w1 & Hy & Hrest)%bind_return_inv.
    unfold lift in Hy. injection Hy as Hy <-.
    apply bind_return_inv in Hrest as (ys & w2 & Hys & Hret).
    apply return_inj in Hret as [<- <-].
    apply IH in Hys as [-> Hys]. split; [done |].
    constructor; [by apply relative_label_return | done].
Qed.

Lemma nested_labels_return base (l : list Path) w labels w' :
  nested_labels base l w = (Return labels, w') →
  w' = w ∧
  ∃ each, Forall2 (label_from base) l each ∧
          labels = OrderedSet.make each.
Proof.
  unfold nested_labels.
  intros (each & w1 & Heach & Hret)%bind_return_inv.
  apply return_inj in Hret as [<- <-].
  apply for_each_label_return in Heach as [-> Heach]. eauto.
Qed.

Lemma build_source_header_world fmt iu extra cfiles rfiles ts w r w' :
  build_source_header fmt iu extra cfiles rfiles ts w = (r, w') → w' = w.
Proof.
  unfold build_source_header, bind, lift, ret.
  destruct ts as [t|]; cbn; destruct (format _ _); by intros [= _ <-].
Qed.

(** The steps of a call that returns, in their order. *)
Lemma extend_source_file_return
    working_directory tag_name specifiers extension index_url
    extra_index_urls lookup_index_urls prereleases
    resolve_canonical_names resolve_versions w w' :
  let filename :=
    build_filename working_directory tag_name extension default_prefix in
  extend_source_file working_directory tag_name specifiers extension
    index_url extra_index_urls lookup_index_urls prereleases
    resolve_canonical_names resolve_versions w = (Return (), w') →
  ∃ req_file checked new w1 written w2 cfiles rfiles header,
    RequirementFile_ (to_str filename) w = inl req_file ∧
    check_index_url (bool_decide (is_Some (files w !! to_str filename)))
      index_url (OrderedSet.make (default [] extra_index_urls)) req_file
    = Return checked ∧
    build_ireq_set specifiers
      (derive_lookup_index_urls lookup_index_urls checked.1 checked.2
         req_file)
      prereleases resolve_canonical_names
      (resolve_source_dir working_directory) resolve_versions w
    = (inl new, w1) ∧
    resolve_ireqs (RequirementFile.requirements req_file ∪ new)
      prereleases true w1 = (inl written, w2) ∧
    Forall2 (label_from (parent filename))
      (RequirementFile.nested_cfiles req_file) cfiles ∧
    Forall2 (label_from (parent filename))
      (RequirementFile.nested_rfiles req_file) rfiles ∧
    build_source_header None checked.1 (Some checked.2)
      (Some (OrderedSet.make cfiles)) (Some (OrderedSet.make rfiles))
      None w2 = (Return header, w2) ∧
    write_requirements (to_str filename) written header w2 = (inl (), w').
Proof.
  intros filename Hrun.
  destruct (RequirementFile_ (to_str filename) w) as [req_file|what]
    eqn:Hload.
  2: { unfold extend_source_file, bind at 1, call at 1 in Hrun.
       fold filename in Hrun. by rewrite Hload in Hrun. }
  rewrite (extend_source_file_checked _ _ _ _ _ _ _ _ _ _ _ _ Hload)
    in Hrun.
  fold filename in Hrun.
  destruct (check_index_url _ _ _ _) as [checked|e] eqn:Hcheck; [| done].
  apply bind_return_inv in Hrun as (new & w1 & Hnew%call_return & Hrun).
  unfold merge_and_rewrite in Hrun.
  apply bind_return_inv in Hrun as (written & w2 & Hres%call_return & Hrun).
  apply bind_return_inv in Hrun as (cs & w3 & Hcs & Hrun).
  apply nested_labels_return in Hcs as (-> & cfiles & Hcfiles & ->).
  apply bind_return_inv in Hrun as (rs & w4 & Hrs & Hrun).
  apply nested_labels_return in Hrs as (-> & rfiles & Hrfiles & ->).
  apply bind_return_inv in Hrun as (header & w5 & Hheader & Hrun).
  pose proof (build_source_header_world _ _ _ _ _ _ _ _ _ Hheader) as ->.
  apply call_return in Hrun.
  exists req_file, checked, new, w1, written, w2, cfiles, rfiles, header.
  by split_and!.
Qed.

(** C7.  In a call that returns, each nested constraint file and each
    nested requirement file of the manifest has a label that leads to
    it from the directory the manifest is in, the parent of the path
    [build_filename] gives; the header the file is written with is
    rendered from these labels, each where it first stands and once.
    When the rendering of [%c] is copied by [str.format], the lines of
    the header after the banner begin with [-c label] for each label of
    a constraint file and [-r label] for each label of a requirement
    file. *)
Theorem extend_source_file_nested_labels
    working_directory tag_name specifiers extension index_url
    extra_index_urls lookup_index_urls prereleases
    resolve_canonical_names resolve_versions w w' :
  let filename :=
    build_filename working_directory tag_name extension default_prefix in
  extend_source_file working_directory tag_name specifiers extension
    index_url extra_index_urls lookup_index_urls prereleases
    resolve_canonical_names resolve_versions w = (Return (), w') →
  ∃ req_file cfiles rfiles index_url' extra' written header w2,
    RequirementFile_ (to_str filename) w = inl req_file ∧
    Forall2 (label_from (parent filename))
      (RequirementFile.nested_cfiles req_file) cfiles ∧
    Forall2 (label_from (parent filename))
      (RequirementFile.nested_rfiles req_file) rfiles ∧
    build_source_header None index_url' (Some extra')
      (Some (first_occurrences cfiles)) (Some (first_occurrences rfiles))
      None w2 = (Return header, w2) ∧
    write_requirements (to_str filename) written header w2 = (inl (), w') ∧
    (copied_clock (clock w2) →
     header =
       unlines (rstrip_last
         (["# -*- mode: requirementstxt -*-"; "# vim: set ft=requirements";
           banner (clock w2)] ++
          map (λ l, "-c " +:+ l) (first_occurrences cfiles) ++
          map (λ l, "-r " +:+ l) (first_occurrences rfiles) ++
          directives index_url' (Some extra') None None))).
Proof.
  intros filename Hrun.
  apply extend_source_file_return in Hrun
    as (req_file & checked & new & w1 & written & w2 & cfiles & rfiles
        & header & Hload & _ & _ & _ & Hcs & Hrs & Hheader & Hwrite).
  rewrite !make_first_occurrences in Hheader.
  exists req_file, cfiles, rfiles, checked.1, checked.2, written, header, w2.
  split_and!; try done.
  intros Hclock. rewrite build_source_header_default in Hheader by done.
  by apply return_inj in Hheader as [<- _].
Qed.

(** C4.  In a call that returns, the requirements written are what
    [resolve_ireqs], with [intersect=true], makes of the union of the
    manifest's requirements and those [build_ireq_set] resolved.  With
    an intersector that keeps its contract, no two of them have the
    same canonical name, every name of the union is among them, and
    each admits the versions that all requirements of its name in the
    union admit. *)
Theorem extend_source_file_writes_intersection
    working_directory tag_name specifiers extension index_url
    extra_index_urls lookup_index_urls prereleases
    resolve_canonical_names resolve_versions w w' :
  let filename :=
    build_filename working_directory tag_name extension default_prefix in
  intersector_contract →
  extend_source_file working_directory tag_name specifiers extension
    index_url extra_index_urls lookup_index_urls prereleases
    resolve_canonical_names resolve_versions w = (Return (), w') →
  ∃ req_file lookup new w1 written w2 header,
    RequirementFile_ (to_str filename) w = inl req_file ∧
    build_ireq_set specifiers lookup prereleases resolve_canonical_names
      (resolve_source_dir working_directory) resolve_versions w
    = (inl new, w1) ∧
    let union := RequirementFile.requirements req_file ∪ new in
    resolve_ireqs union prereleases true w1 = (inl written, w2) ∧
    write_requirements (to_str filename) written header w2 = (inl (), w') ∧
    NoDup (canonical_name <$> written) ∧
    (∀ r', r' ∈ union →
       ∃ r, r ∈ written ∧ canonical_name r = canonical_name r') ∧
    (∀ r, r ∈ written →
       ∃ r', r' ∈ union ∧ canonical_name r' = canonical_name r) ∧
    (∀ r v, r ∈ written →
       admits r v ↔
       ∀ r', r' ∈ union → canonical_name r' = canonical_name r →
             admits r' v).
Proof.
  intros filename Hcontract Hrun.
  apply extend_source_file_return in Hrun
    as (req_file & checked & new & w1 & written & w2 & cfiles & rfiles
        & header & Hload & _ & Hnew & Hres & _ & _ & _ & Hwrite).
  destruct (Hcontract _ _ _ _ _ Hres) as (Hnodup & Hfrom & Hall & Hmeet).
  eexists req_file, _, new, w1, written, w2, header.
  split; [done |]. split; [exact Hnew |]. cbv zeta.
  by split_and!.
Qed.
End extend_returns.

(** ** The Version Intersector keeps its contract *)

Section intersector.
Import Demo.

Lemma admits_meet (a b : requirement) (v : Z) :
  admits_version (meet a b) v ↔ admits_version a v ∧ admits_version b v.
Proof.
  unfold admits_version, meet, max_lower, min_upper. cbn.
  destruct (lower a), (lower b), (upper a), (upper b); cbn; lia.
Qed.

Lemma merge_into_names (x : requirement) (acc : list requirement) :
  name <$> merge_into x acc =
    if decide (name x ∈ name <$> acc) then name <$> acc
    else (name <$> acc) ++ [name x].
Proof.
  induction acc as [|a acc IH]; cbn [merge_into fmap list_fmap].
  - rewrite decide_False; [done | by intros ?%elem_of_nil].
  - destruct (String.eqb_spec (name a) (name x)) as [Heq | Hne].
    + rewrite decide_True; [done | rewrite Heq; by left].
    + cbn [fmap list_fmap]. change (list_fmap _ _ name) with (fmap name).
      rewrite IH. case_decide as Hin.
      * rewrite decide_True; [done | by right].
      * rewrite decide_False; [done |].
        intros [?|?]%elem_of_cons; [by apply Hne | done].
Qed.

(** An entry after the merge of [x]: an entry of another name that was
    there, or the entry of the name of [x], which admits what [x] and
    the entries of that name admit. *)
Lemma merge_into_admits (x : requirement) (acc : list requirement) r v :
  NoDup (name <$> acc) →
  r ∈ merge_into x acc →
  (name r ≠ name x ∧ r ∈ acc) ∨
  (name r = name x ∧
   (admits_version r v ↔
    admits_version x v ∧
    ∀ a, a ∈ acc → name a = name x → admits_version a v)).
Proof.
  induction acc as [|a acc IH]; cbn [merge_into fmap list_fmap].
  - intros _ ->%list_elem_of_singleton. right. split; [done |].
    split; [intros ?; split; [done |]; by intros ? ?%elem_of_nil | tauto].
  - intros [Ha Hacc]%NoDup_cons.
    destruct (String.eqb_spec (name a) (name x)) as [Heq | Hne].
    + intros [-> | Hr]%elem_of_cons.
      * right. split; [done |]. rewrite admits_meet. split.
        -- intros [Hav Hxv]. split; [done |].
           intros a' [-> | Ha']%elem_of_cons Hname; [done |].
           destruct Ha. rewrite Heq, <- Hname.
           by apply list_elem_of_fmap_2.
        -- intros [Hxv Hall]. split; [| done]. apply Hall; [by left | done].
      * left. split; [| by right]. intros Hname. apply Ha.
        rewrite Heq, <- Hname. by apply list_elem_of_fmap_2.
    + intros [-> | Hr]%elem_of_cons; [left; split; [done | by left] |].
      destruct (IH Hacc Hr) as [[Hname Hin] | [Hname Hiff]].
      * left. split; [done | by right].
      * right. split; [done |]. rewrite Hiff. split.
        -- intros [Hxv Hall]. split; [done |].
           intros a' [-> | Ha']%elem_of_cons Hn; [done | by apply Hall].
        -- intros [Hxv Hall]. split; [done |].
           intros a' Ha' Hn. apply Hall; [by right | done].
Qed.

Lemma merged_step (acc seen : list requirement) (x : requirement) :
  merged acc seen → merged (merge_into x acc) (seen ++ [x]).
Proof.
  intros (Hnodup & Hnames & Hadmits). split_and!.
  - rewrite merge_into_names. case_decide as Hin; [done |].
    apply NoDup_app. split_and!; [done | | apply NoDup_singleton].
    by intros n Hn ->%list_elem_of_singleton.
  - intros n. rewrite merge_into_names, fmap_app, elem_of_app.
    cbn. rewrite list_elem_of_singleton, <- Hnames.
    case_decide as Hin; [| by rewrite elem_of_app, list_elem_of_singleton].
    split; [tauto | intros [? | ->]; done].
  - intros r v Hr.
    destruct (merge_into_admits x acc r v Hnodup Hr)
      as [[Hname Hin] | [Hname Hiff]].
    + rewrite (Hadmits r v Hin). split.
      * intros Hall r' [Hr' | ->%list_elem_of_singleton]%elem_of_app Hn;
          [by apply Hall | done].
      * intros Hall r' Hr' Hn. apply Hall; [| done].
        apply elem_of_app. by left.
    + rewrite Hiff. split.
      * intros [Hxv Hall] r' [Hr' | ->%list_elem_of_singleton]%elem_of_app Hn;
          [| done].
        assert (name r' ∈ name <$> acc) as (a & Ha & Hain)%list_elem_of_fmap
          by (apply Hnames; by apply list_elem_of_fmap_2).
        assert (admits_version a v) as Hav
          by (apply Hall; [done | congruence]).
        apply (proj1 (Hadmits a v Hain) Hav); [done | congruence].
      * intros Hall. split.
        -- apply Hall; [| done]. apply elem_of_app. right. by left.
        -- intros a Ha Hn. apply (proj2 (Hadmits a v Ha)). intros r' Hr' Hn'.
           apply Hall; [| congruence]. apply elem_of_app. by left.
Qed.

Lemma merged_merge_by_name (given : list requirement) :
  merged (merge_by_name given) given.
Proof.
  unfold merge_by_name.
  induction given as [|x given IH] using rev_ind.
  - split_and!; [constructor | done |]. by intros r v ?%elem_of_nil.
  - rewrite foldl_snoc. by apply merged_step.
Qed.

(** The intersector modelled from the spec keeps the contract the spec
    gives it. *)
Lemma demo_intersector_contract manifest resolved :
  intersector_contract (C := collaborators manifest resolved).
Proof.
  intros reqs pre w out w'. cbn. unfold intersector.
  destruct (forallb satisfiable _); [| done]. intros [= <- <-].
  destruct (merged_merge_by_name (elements reqs))
    as (Hnodup & Hnames & Hadmits).
  split_and!.
  - done.
  - intros r Hr.
    assert (name r ∈ name <$> elements reqs)
      as (r' & Hn & Hr')%list_elem_of_fmap
      by (apply Hnames; by apply list_elem_of_fmap_2).
    exists r'. split; [by apply elem_of_elements | done].
  - intros r' Hr'%elem_of_elements.
    assert (name r' ∈ name <$> merge_by_name (elements reqs))
      as (r & Hn & Hr)%list_elem_of_fmap
      by (apply Hnames; by apply list_elem_of_fmap_2).
    by exists r.
  - intros r v Hr. rewrite (Hadmits r v Hr).
    by setoid_rewrite elem_of_elements.
Qed.
End intersector.

(** ** [extend_source_file] on a manifest *)

Section extend_runs.
Import Text Pathlib Scaffold Header Fixture.
Local Existing Instance collaborators_a.

Lemma extended_returns : extended = (Return (), extended.2).
Proof. by vm_compute. Qed.

(** The manifest after the call: the nested files by their paths from
    [/work/src], the recorded index, one line for each name, the range
    of [flask] narrowed to what both requirements admit. *)
Example extended_manifest :
  OS.read_bytes manifest_path extended.2
  = Some (encode_utf8 extended_content).
Proof. by vm_compute. Qed.

Lemma extend_source_file_writes_intersection_witness :
  ∃ req_file lookup new w1 written w2 header,
    RequirementFile_
      (to_str (build_filename "/work" "base" ".in" default_prefix))
      with_manifest = inl req_file ∧
    build_ireq_set ["flask>=2,<4"; "six"] lookup false true
      (resolve_source_dir "/work") true with_manifest = (inl new, w1) ∧
    let union := RequirementFile.requirements req_file ∪ new in
    resolve_ireqs union false true w1 = (inl written, w2) ∧
    write_requirements
      (to_str (build_filename "/work" "base" ".in" default_prefix))
      written header w2 = (inl (), extended.2) ∧
    NoDup (canonical_name <$> written) ∧
    (∀ r', r' ∈ union →
       ∃ r, r ∈ written ∧ canonical_name r = canonical_name r') ∧
    (∀ r, r ∈ written →
       ∃ r', r' ∈ union ∧ canonical_name r' = canonical_name r) ∧
    (∀ r v, r ∈ written →
       admits r v ↔
       ∀ r', r' ∈ union → canonical_name r' = canonical_name r →
             admits r' v).
Proof.
  apply (extend_source_file_writes_intersection (L := CLocale.locale)
           (C := Demo.collaborators manifest_a resolved_new)
           "/work" "base" ["flask>=2,<4"; "six"] ".in" None None None
           false true true with_manifest extended.2).
  - apply demo_intersector_contract.
  - exact extended_returns.
Defined.

Lemma extend_source_file_nested_labels_witness :
  ∃ req_file cfiles rfiles index_url' extra' written header w2,
    RequirementFile_
      (to_str (build_filename "/work" "base" ".in" default_prefix))
      with_manifest = inl req_file ∧
    Forall2
      (label_from (parent (build_filename "/work" "base" ".in" default_prefix)))
      (RequirementFile.nested_cfiles req_file) cfiles ∧
    Forall2
      (label_from (parent (build_filename "/work" "base" ".in" default_prefix)))
      (RequirementFile.nested_rfiles req_file) rfiles ∧
    build_source_header (L := CLocale.locale) None index_url' (Some extra')
      (Some (first_occurrences cfiles)) (Some (first_occurrences rfiles))
      None w2 = (Return header, w2) ∧
    write_requirements
      (to_str (build_filename "/work" "base" ".in" default_prefix))
      written header w2 = (inl (), extended.2) ∧
    (copied_clock (L := CLocale.locale) (clock w2) →
     header =
       unlines (rstrip_last
         (["# -*- mode: requirementstxt -*-"; "# vim: set ft=requirements";
           banner (L := CLocale.locale) (clock w2)] ++
          map (λ l, "-c " +:+ l) (first_occurrences cfiles) ++
          map (λ l, "-r " +:+ l) (first_occurrences rfiles) ++
          directives index_url' (Some extra') None None))).
Proof.
  apply (extend_source_file_nested_labels (L := CLocale.locale)
           (C := Demo.collaborators manifest_a resolved_new)
           "/work" "base" ["flask>=2,<4"; "six"] ".in" None None None
           false true true with_manifest extended.2).
  exact extended_returns.
Defined.

(** The manifest records no index and the caller gives none, no extra
    ones and no lookup set: the specifiers are looked up in the index
    URLs the manifest declares, its nested files included. *)
Lemma extend_source_file_lookup_index_urls_witness :
  extend_source_file (L := CLocale.locale)
    (C := Demo.collaborators manifest_plain resolved_new)
    "/work" "base" ["flask>=2,<4"; "six"] ".in" None None None
    false true true with_manifest
  = bind (call (build_ireq_set
                  (Collaborators := Demo.collaborators manifest_plain resolved_new)
                  ["flask>=2,<4"; "six"] {[ "https://nested" ]} false true
                  "/" true))
         (merge_and_rewrite (L := CLocale.locale) manifest_path
            manifest_plain None [] false) with_manifest
  ∧ ((None, []) : option string * list string) = (None, []).
Proof.
  exact (extend_source_file_lookup_index_urls (L := CLocale.locale)
           (C := Demo.collaborators manifest_plain resolved_new)
           "/work" "base" ["flask>=2,<4"; "six"] ".in" None None
           false true true with_manifest manifest_plain (None, [])
           eq_refl eq_refl).
Defined.
End extend_runs.

(** * Further properties *)

(** ** [build_filename]: which paths come out *)

Section build_filename_paths.
Import Text Pathlib Scaffold Names.

Lemma starts_with_slash (c : ascii) (s : string) :
  starts_with "/" (String c s) = Ascii.eqb c "/".
Proof.
  unfold starts_with. cbn [String.prefix].
  destruct (ascii_dec "/" c) as [<- | Hne]; [by destruct s |].
  symmetry. apply Ascii.eqb_neq. congruence.
Qed.

Lemma split_free (sep : ascii) (s : string) :
  all_chars (λ c, negb (Ascii.eqb c sep)) s = true → split sep s = [s].
Proof.
  induction s as [|c s IH]; [done |].
  intros [Hc Hs]%andb_true_iff. apply negb_true_iff in Hc.
  cbn [split]. by rewrite Hc, (IH Hs).
Qed.

(** The text of one component is the path of that component. *)
Lemma parse_simple_name (s : string) :
  simple_name s = true → parse s = mkPath EmptyString [s].
Proof.
  unfold simple_name. intros [[Hne Hfree]%andb_true_iff Hdot]%andb_true_iff.
  unfold parse. f_equal.
  - destruct s as [|c s]; [done |]. unfold parse_root.
    rewrite starts_with_slash.
    apply andb_true_iff in Hfree as [Hc _]. apply negb_true_iff in Hc.
    by rewrite Hc.
  - unfold parse_parts, slash. rewrite (split_free "/" s Hfree).
    rewrite filter_cons, filter_nil. rewrite decide_True; [done |].
    unfold keep_part. rewrite Hdot.
    destruct s; [done | done].
Qed.

(** X1.  With a prefix and a file name that are single components, the
    path is the working directory with these two components after it, and
    its parent is the working directory joined with the prefix. *)
Theorem build_filename_below_working_directory
    working_directory tag_name extension prefix :
  simple_name prefix = true →
  simple_name (tag_name +:+ extension) = true →
  build_filename working_directory tag_name extension prefix
  = mkPath (root (parse working_directory))
           (parts (parse working_directory) ++ [prefix; tag_name +:+ extension])
  ∧ parent (build_filename working_directory tag_name extension prefix)
    = joinpath (parse working_directory) prefix.
Proof.
  intros Hprefix Hname. unfold build_filename. rewrite join_pair.
  unfold joinpath. rewrite (parse_simple_name _ Hprefix).
  rewrite (parse_simple_name _ Hname). cbn [root parts truthy].
  split; [by rewrite <- app_assoc |].
  unfold parent. cbn [root parts]. f_equal.
  by rewrite removelast_last.
Qed.

Lemma build_filename_below_working_directory_witness :
  build_filename "/work" "base" ".in" "src"
  = mkPath (root (parse "/work")) (parts (parse "/work") ++ ["src"; "base.in"])
  ∧ parent (build_filename "/work" "base" ".in" "src")
    = joinpath (parse "/work") "src".
Proof.
  apply (build_filename_below_working_directory "/work" "base" ".in" "src");
    reflexivity.
Defined.

Lemma parse_root_absolute (s : string) :
  starts_with "/" s = true → truthy (parse_root s) = true.
Proof.
  intros Hs. unfold parse_root. rewrite Hs.
  by destruct (starts_with "//" s), (starts_with "///" s).
Qed.

Lemma joinpath_absolute (p : Path) (s : string) :
  starts_with "/" s = true → joinpath p s = parse s.
Proof.
  intros Habs. unfold joinpath.
  change (root (parse s)) with (parse_root s).
  by rewrite (parse_root_absolute _ Habs).
Qed.

(** X2.  A tag name that starts with a slash takes the path out of the
    working directory: the result is the path of the tag name and the
    extension alone.  A prefix that starts with a slash replaces the
    working directory in the same way. *)
Theorem build_filename_absolute_name_escapes
    working_directory tag_name extension prefix :
  (starts_with "/" (tag_name +:+ extension) = true →
   build_filename working_directory tag_name extension prefix
   = parse (tag_name +:+ extension))
  ∧
  (starts_with "/" prefix = true →
   build_filename working_directory tag_name extension prefix
   = joinpath (parse prefix) (tag_name +:+ extension)).
Proof.
  unfold build_filename. rewrite join_pair. split; intros Habs.
  - by apply joinpath_absolute.
  - f_equal. by apply joinpath_absolute.
Qed.

Lemma build_filename_absolute_name_escapes_witness :
  build_filename "/work" "/etc/passwd" "" "src" = parse "/etc/passwd"
  ∧ build_filename "/work" "base" ".in" "/tmp" = joinpath (parse "/tmp") "base.in".
Proof.
  split.
  - apply (proj1 (build_filename_absolute_name_escapes
                    "/work" "/etc/passwd" "" "src")). reflexivity.
  - apply (proj2 (build_filename_absolute_name_escapes
                    "/work" "base" ".in" "/tmp")). reflexivity.
Defined.
End build_filename_paths.

(** ** [build_source_header]: any template, and the default one *)

Section header_more.
Import Text Format Scaffold Header Names.
Context {L : Locale}.

Lemma lstrip_black_or_empty (s : string) :
  lstrip s = EmptyString ∨ starts_black (lstrip s) = true.
Proof.
  induction s as [|c s IH]; [by left |].
  cbn [lstrip]. destruct (is_space c) eqn:Hc; [done |].
  right. cbn. by rewrite Hc.
Qed.

Lemma rstrip_rstrip (s : string) : rstrip (rstrip s) = rstrip s.
Proof.
  induction s as [|c s IH]; [done |].
  cbn [rstrip]. destruct (rstrip s) as [|d r] eqn:Hr.
  - destruct (is_space c) eqn:Hc; [done |]. cbn. by rewrite Hc.
  - change (rstrip (String c (String d r)))
      with (match rstrip (String d r) with
            | EmptyString =>
                if is_space c then EmptyString else String c EmptyString
            | String a r' => String c (String a r')
            end).
    by rewrite IH.
Qed.

(** Stripping twice is stripping once. *)
Lemma strip_strip (s : string) : strip (strip s) = strip s.
Proof.
  unfold strip. destruct (lstrip_black_or_empty s) as [-> | Hblack]; [done |].
  rewrite (starts_black_lstrip (rstrip (lstrip s)))
    by (by apply starts_black_rstrip).
  apply rstrip_rstrip.
Qed.

(** X3.  Whatever the template and the components, a header that is
    returned is a text without white space at either end, followed by one
    line break; rendering it has not changed the world. *)
Theorem build_source_header_is_stripped
    fmt iu extra cfiles rfiles ts w header w' :
  build_source_header fmt iu extra cfiles rfiles ts w = (Return header, w') →
  w' = w ∧
  ∃ body, header = body +:+ nl ∧ strip body = body.
Proof.
  intros Hrun.
  split; [by eapply build_source_header_world |].
  unfold build_source_header in Hrun.
  apply bind_return_inv in Hrun as (t & w1 & _ & Hrest).
  apply bind_return_inv in Hrest as (text & w2 & _ & Hret).
  apply return_inj in Hret as [<- _].
  exists (strip text). split; [done | apply strip_strip].
Qed.


(** X4.  Under the default template the lines of the header are the two
    mode lines, the banner, one [-c] line for each nested constraint
    file, one [-r] line for each nested requirement file, the
    [--index-url] line and one [--extra-index-url] line for each extra
    index URL, in this order and in the order of each collection; the
    last line has lost the white space at its end. *)
Theorem build_source_header_lines_in_order
    ts iu extra cfiles rfiles w :
  let t := default (clock w) ts in
  copied_clock t →
  one_line_each t iu extra cfiles rfiles →
  ∃ header,
    build_source_header None iu extra cfiles rfiles ts w
    = (Return header, w) ∧
    lines header =
      rstrip_last
        (["# -*- mode: requirementstxt -*-"; "# vim: set ft=requirements";
          "# Generated by reqwire on " +:+ conversion "c"%char t] ++
         map (λ f, "-c " +:+ f) (default [] cfiles) ++
         map (λ f, "-r " +:+ f) (default [] rfiles) ++
         from_option (λ u, ["--index-url " +:+ strip u]) [] iu ++
         map (λ u, "--extra-index-url " +:+ u) (default [] extra)).
Proof.
  intros t Hclock Hone. eexists.
  split; [by apply build_source_header_default |].
  fold t. rewrite lines_unlines; [done |].
  apply rstrip_last_Forall; [apply single_line_rstrip |].
  by apply all_lines_single.
Qed.


(** X5.  A collection that is given and empty renders as one that is not
    given, whatever the template. *)
Theorem build_source_header_empty_collection
    fmt iu extra cfiles rfiles ts w :
  build_source_header fmt iu (Some []) cfiles rfiles ts w
  = build_source_header fmt iu None cfiles rfiles ts w
  ∧ build_source_header fmt iu extra (Some []) rfiles ts w
    = build_source_header fmt iu extra None rfiles ts w
  ∧ build_source_header fmt iu extra cfiles (Some []) ts w
    = build_source_header fmt iu extra cfiles None ts w.
Proof.
  unfold build_source_header. split_and!.
  - replace (header_components iu (Some []) cfiles rfiles)
      with (header_components iu None cfiles rfiles); [done |].
    by destruct iu, cfiles, rfiles.
  - replace (header_components iu extra (Some []) rfiles)
      with (header_components iu extra None rfiles); [done |].
    by destruct iu, extra, rfiles.
  - replace (header_components iu extra cfiles (Some []))
      with (header_components iu extra cfiles None); [done |].
    by destruct iu, extra, cfiles.
Qed.

(** The white space around the index URL does not count: the header is
    that of the stripped URL, whatever the template. *)
Lemma build_source_header_strips_index_url
    fmt (u : string) extra cfiles rfiles ts w :
  build_source_header fmt (Some u) extra cfiles rfiles ts w
  = build_source_header fmt (Some (strip u)) extra cfiles rfiles ts w.
Proof.
  unfold build_source_header, header_components. by rewrite strip_strip.
Qed.




End header_more.

Section header_more_runs.
Import Text Format Scaffold Header Names.

Lemma build_source_header_is_stripped_witness :
  let run :=
    build_source_header (L := CLocale.locale) (Some "  on %Y {index_url}  ")
      (Some "https://a") None None None (Some Fixture.tuesday)
      Fixture.bare in
  run.2 = Fixture.bare ∧
  ∃ body, "on 2026 --index-url https://a" +:+ nl = body +:+ nl ∧
          strip body = body.
Proof.
  apply (build_source_header_is_stripped (L := CLocale.locale)
           (Some "  on %Y {index_url}  ") (Some "https://a") None None None
           (Some Fixture.tuesday) Fixture.bare). 
  by vm_compute.
Defined.

Lemma build_source_header_lines_in_order_witness :
  ∃ header,
    build_source_header (L := CLocale.locale) None (Some " https://a ")
      (Some ["https://x"; "https://y "]) (Some ["c.in"]) (Some ["r.in"])
      (Some Fixture.tuesday) Fixture.bare
    = (Return header, Fixture.bare) ∧
    lines header =
      rstrip_last
        (["# -*- mode: requirementstxt -*-"; "# vim: set ft=requirements";
          "# Generated by reqwire on " +:+
          conversion (Locale := CLocale.locale) "c"%char Fixture.tuesday] ++
         map (λ f, "-c " +:+ f) ["c.in"] ++
         map (λ f, "-r " +:+ f) ["r.in"] ++
         ["--index-url " +:+ strip " https://a "] ++
         map (λ u, "--extra-index-url " +:+ u) ["https://x"; "https://y "]).
Proof.
  apply (build_source_header_lines_in_order (L := CLocale.locale)
           (Some Fixture.tuesday) (Some " https://a ")
           (Some ["https://x"; "https://y "]) (Some ["c.in"]) (Some ["r.in"])
           Fixture.bare).
  - by vm_compute.
  - split_and!; cbn; by repeat constructor.
Defined.

End header_more_runs.

(** ** [build_source_header]: a template that names another field *)

Section header_unknown_field.
Import Text Format Scaffold Header Names.
Context {L : Locale}.






End header_unknown_field.

Section header_unknown_field_runs.
Import Text Format Scaffold Header Names.

End header_unknown_field_runs.

(** ** [init_source_dir]: what a return means *)

Section init_source_dir_more.
Import Text Pathlib Scaffold.

Lemma refused_raises p e w w' :
  OS.refused p w = (Raise e, w') → ∃ k, e = OSError k.
Proof.
  unfold OS.refused. destruct (faults w !! _); intros [= <- _]; eauto.
Qed.

Lemma creatable_raises p e w w' :
  OS.creatable p w = (Raise e, w') → ∃ k, e = OSError k.
Proof.
  unfold OS.creatable. destruct (OS.lookup_path _ w) as [[d|]|];
    try (intros [= <- _]; by eauto). apply refused_raises.
Qed.

(** [os.mkdir] returns only where nothing stood, and leaves a directory. *)
Lemma os_mkdir_return p mode w w' :
  OS.os_mkdir p mode w = (Return (), w') →
  OS.lookup_path p w = None ∧ w' = OS.set_node p Dir w.
Proof.
  unfold OS.os_mkdir. destruct (OS.lookup_path p w) as [n|]; [done |].
  intros (u & w1 & Hc & Hret)%bind_return_inv.
  apply creatable_world in Hc as ->. by apply return_inj in Hret as [_ <-].
Qed.

Lemma os_mkdir_raises p mode e w w' :
  OS.os_mkdir p mode w = (Raise e, w') → w' = w ∧ ∃ k, e = OSError k.
Proof.
  unfold OS.os_mkdir. destruct (OS.lookup_path p w) as [n|].
  - intros [= <- <-]. eauto.
  - intros [Hc | (u & w1 & _ & Hret)]%bind_raise_inv; [| done].
    split; [by eapply creatable_world | by eapply creatable_raises].
Qed.

Lemma mkdir_flat_strict_return p mode w w' :
  OS.mkdir_flat p mode false w = (Return (), w') →
  OS.lookup_path p w = None ∧ w' = OS.set_node p Dir w.
Proof.
  unfold OS.mkdir_flat, try_except_OSError.
  destruct (OS.os_mkdir p mode w) as [[[]|e] w1] eqn:Hmk.
  - intros [_ <-]%return_inj. by apply os_mkdir_return in Hmk.
  - apply os_mkdir_raises in Hmk as (-> & k & ->). cbn.
    unfold bind, OS.is_dir. by cbn.
Qed.

Lemma mkdir_from_strict_return r rparts mode parents w w' :
  OS.mkdir_from r rparts mode parents false w = (Return (), w') →
  OS.lookup_path (mkPath r (rev rparts)) w = None ∧
  OS.lookup_path (mkPath r (rev rparts)) w' = Some Dir.
Proof.
  set (self := mkPath r (rev rparts)).
  assert (OS.mkdir_from r rparts mode parents false
          = try_except_OSError (OS.os_mkdir self mode)
              (λ e, match e, rparts with
                    | OSError ENOENT, _ :: up =>
                        if parents then
                          bind (OS.mkdir_from r up 511 true true)
                               (λ _, OS.mkdir_flat self mode false)
                        else raise e
                    | OSError ENOENT, [] => raise e
                    | _, _ =>
                        bind (OS.is_dir self)
                          (λ d, if negb false || negb d then raise e
                                else ret ())
                    end)) as -> by (by destruct rparts).
  unfold try_except_OSError.
  destruct (OS.os_mkdir self mode w) as [[[]|e] w1] eqn:Hmk.
  - intros [_ <-]%return_inj. apply os_mkdir_return in Hmk as [Hnone ->].
    split; [done | apply lookup_set_node].
  - apply os_mkdir_raises in Hmk as Hraise. destruct Hraise as (-> & k & ->).
    cbn [is_OSError].
    assert (∀ e', (bind (OS.is_dir self)
                     (λ d, if negb false || negb d then raise e' else ret ()))
                    w ≠ (Return (), w')) as Hstrict
      by (intros e'; unfold bind, OS.is_dir; by cbn).
    destruct k, rparts as [|x up]; try (by intros ?%Hstrict); try done.
    assert (OS.lookup_path self w = None) as Hnone.
    { unfold OS.os_mkdir in Hmk. by destruct (OS.lookup_path self w). }
    destruct parents; [| done].
    intros (u & w2 & _ & Hflat)%bind_return_inv.
    apply mkdir_flat_strict_return in Hflat as [_ ->].
    split; [done | apply lookup_set_node].
Qed.

(** X8.  With [exist_ok=false] a call that returns has made the
    directory: nothing stood at [working_directory / name] before, a
    directory stands there after, and that path is what is returned. *)
Theorem init_source_dir_return_means_created
    working_directory mode create_parents name w p w' :
  init_source_dir working_directory mode create_parents false name w
    = (Return p, w') →
  p = joinpath (parse working_directory) name ∧
  OS.lookup_path p w = None ∧
  OS.lookup_path p w' = Some Dir.
Proof.
  unfold init_source_dir.
  intros (u & w1 & Hmk & Hret)%bind_return_inv.
  apply return_inj in Hret as [<- <-]. split; [done |].
  set (src := joinpath (parse working_directory) name) in *.
  unfold try_except_OSError in Hmk.
  destruct (OS.mkdir src mode create_parents w) as [[[]|e] w2] eqn:Hrun.
  - apply return_inj in Hmk as [_ <-]. unfold OS.mkdir in Hrun.
    apply mkdir_from_strict_return in Hrun.
    rewrite rev_involutive in Hrun. by destruct src.
  - by destruct (is_OSError e).
Qed.

Lemma init_source_dir_return_means_created_witness :
  let run := init_source_dir "/work" 511 true false "src" Fixture.bare in
  mkPath "/" ["work"; "src"] = joinpath (parse "/work") "src" ∧
  OS.lookup_path (mkPath "/" ["work"; "src"]) Fixture.bare = None ∧
  OS.lookup_path (mkPath "/" ["work"; "src"]) run.2 = Some Dir.
Proof.
  intros run.
  apply (init_source_dir_return_means_created "/work" 511 true "src"
           Fixture.bare (mkPath "/" ["work"; "src"]) run.2).
  by vm_compute.
Defined.


End init_source_dir_more.

(** ** [init_source_file]: where the file cannot or can be made *)

Section init_source_file_more.
Import Text Pathlib Scaffold Header.
Context {L : Locale}.






(** X13.  A directory stands where the file should be, as it does when
    the tag name and the extension are empty: [init_source_file] raises
    [IsADirectoryError] and changes nothing. *)
Theorem init_source_file_on_directory
    working_directory tag_name extension index_url extra_index_urls
    mode overwrite w :
  let filename :=
    build_filename working_directory tag_name extension default_prefix in
  OS.lookup_path filename w = Some Dir →
  faults w !! to_str filename = None →
  init_source_file working_directory tag_name extension index_url
    extra_index_urls None None mode overwrite w
  = (Raise (OSError EISDIR), w).
Proof.
  intros filename Hdir Hok.
  assert (OS.touch filename mode w = (Return (), w)) as Htouch.
  { unfold OS.touch, OS.os_utime. rewrite Hdir. unfold OS.refused.
    by rewrite Hok. }
  unfold init_source_file. fold filename.
  unfold bind at 1, try_except_OSError. rewrite Htouch.
  unfold bind at 1, OS.io_open_wb, bind at 1, OS.os_open_creat.
  by rewrite Hdir.
Qed.
End init_source_file_more.

Section init_source_file_more_runs.
Import Text Pathlib Scaffold Header Fixture Fixture2.




Lemma init_source_file_on_directory_witness :
  init_source_file (L := CLocale.locale) "/work" EmptyString EmptyString
    None None None None 438 true with_src
  = (Raise (OSError EISDIR), with_src).
Proof.
  apply (init_source_file_on_directory (L := CLocale.locale)
           "/work" EmptyString EmptyString None None 438 true with_src);
    by vm_compute.
Defined.
End init_source_file_more_runs.

(** ** [extend_source_file]: what is written, what stops it *)

Section extend_more.
Import Text Format Pathlib Scaffold Header Names.
Context {L : Locale} {C : Collaborators}.

Lemma update_make (a b : list string) :
  OrderedSet.update (OrderedSet.make a) b = OrderedSet.make (a ++ b).
Proof. unfold OrderedSet.make, OrderedSet.update. by rewrite foldl_app. Qed.

(** X14.  The index configuration of the header a returning call writes:
    the caller's index URL and the caller's extra index URLs when an
    index URL is given, whatever extra index URLs the manifest records;
    with no index URL given and the manifest there, the manifest's index
    URL and the caller's extra index URLs followed by the manifest's;
    each extra index URL once, where it first stands. *)
Theorem extend_source_file_written_index_configuration
    working_directory tag_name specifiers extension index_url
    extra_index_urls lookup_index_urls prereleases
    resolve_canonical_names resolve_versions w w' :
  let filename :=
    build_filename working_directory tag_name extension default_prefix in
  let file_exists := bool_decide (is_Some (files w !! to_str filename)) in
  extend_source_file working_directory tag_name specifiers extension
    index_url extra_index_urls lookup_index_urls prereleases
    resolve_canonical_names resolve_versions w = (Return (), w') →
  ∃ req_file cfiles rfiles written header w2,
    RequirementFile_ (to_str filename) w = inl req_file ∧
    build_source_header None
      (effective_index_url file_exists index_url
         (RequirementFile.index_url req_file))
      (Some (first_occurrences
               (effective_extra_index_urls file_exists index_url
                  (default [] extra_index_urls)
                  (RequirementFile.extra_index_urls req_file))))
      (Some cfiles) (Some rfiles) None w2 = (Return header, w2) ∧
    write_requirements (to_str filename) written header w2 = (inl (), w').
Proof.
  intros filename file_exists Hrun.
  apply extend_source_file_return in Hrun
    as (req_file & checked & new & w1 & written & w2 & cfiles & rfiles
        & header & Hload & Hcheck & _ & _ & _ & _ & Hheader & Hwrite).
  fold filename file_exists in Hcheck.
  apply check_index_url_return in Hcheck.
  exists req_file, (OrderedSet.make cfiles), (OrderedSet.make rfiles),
    written, header, w2.
  split_and!; [done | | done].
  replace (effective_index_url file_exists index_url
             (RequirementFile.index_url req_file)) with checked.1
    by (subst checked; by destruct index_url, file_exists).
  replace (first_occurrences _) with checked.2; [done |].
  subst checked. unfold effective_extra_index_urls.
  destruct index_url, file_exists; cbn [snd];
    by rewrite ?update_make, make_first_occurrences.
Qed.

(** Labelling the nested files returns their labels, or raises the
    [ValueError] of one that is not below the base; the world stays. *)
Lemma nested_labels_cases base (l : list Path) w :
  (∃ labels, nested_labels base l w = (Return labels, w) ∧
             Forall (λ f, is_Some (relative_to f base)) l) ∨
  (∃ msg, nested_labels base l w = (Raise (ValueError msg), w) ∧
          Exists (λ f, relative_to f base = None) l).
Proof.
  unfold nested_labels.
  assert ((∃ labels,
             for_each (λ f, lift (relative_label base f)) l w
             = (Return labels, w) ∧
             Forall (λ f, is_Some (relative_to f base)) l) ∨
          (∃ msg,
             for_each (λ f, lift (relative_label base f)) l w
             = (Raise (ValueError msg), w) ∧
             Exists (λ f, relative_to f base = None) l)) as Heach.
  { induction l as [|f l IH]; cbn [for_each].
    - left. by exists [].
    - destruct (relative_to f base) as [rel|] eqn:Hrel.
      + assert (lift (relative_label base f) w
                = (Return (to_str rel), w)) as Hhead
          by (unfold lift, relative_label; by rewrite Hrel).
        rewrite (bind_return _ _ _ _ _ Hhead).
        destruct IH as [(labels & Hl & Hall) | (msg & Hl & Hex)].
        * left. eexists. rewrite (bind_return _ _ _ _ _ Hl).
          split; [done |]. constructor; [by eexists | done].
        * right. exists msg. rewrite (bind_raise _ _ _ _ _ Hl).
          split; [done |]. by apply Exists_cons_tl.
      + right. eexists. split; [| by apply Exists_cons_hd].
        apply bind_raise. unfold lift, relative_label. by rewrite Hrel. }
  destruct Heach as [(labels & Hl & Hall) | (msg & Hl & Hex)].
  - left. eexists. by rewrite (bind_return _ _ _ _ _ Hl).
  - right. exists msg. by rewrite (bind_raise _ _ _ _ _ Hl).
Qed.

(** X15.  A nested file that is not below the directory of the manifest
    stops the call: once the requirements are resolved and intersected,
    [relative_to] raises [ValueError] and [write_requirements] is not
    called, so the world is the one the resolvers left. *)
Theorem extend_source_file_nested_file_outside
    working_directory tag_name specifiers extension index_url
    extra_index_urls lookup_index_urls prereleases
    resolve_canonical_names resolve_versions w req_file checked new w1
    written w2 :
  let filename :=
    build_filename working_directory tag_name extension default_prefix in
  RequirementFile_ (to_str filename) w = inl req_file →
  check_index_url (bool_decide (is_Some (files w !! to_str filename)))
    index_url (OrderedSet.make (default [] extra_index_urls)) req_file
  = Return checked →
  build_ireq_set specifiers
    (derive_lookup_index_urls lookup_index_urls checked.1 checked.2 req_file)
    prereleases resolve_canonical_names
    (resolve_source_dir working_directory) resolve_versions w
  = (inl new, w1) →
  resolve_ireqs (RequirementFile.requirements req_file ∪ new) prereleases
    true w1 = (inl written, w2) →
  Exists (λ f, relative_to f (parent filename) = None)
    (RequirementFile.nested_cfiles req_file ++
     RequirementFile.nested_rfiles req_file) →
  ∃ msg,
    extend_source_file working_directory tag_name specifiers extension
      index_url extra_index_urls lookup_index_urls prereleases
      resolve_canonical_names resolve_versions w
    = (Raise (ValueError msg), w2).
Proof.
  intros filename Hload Hcheck Hnew Hres Hout.
  rewrite (extend_source_file_checked _ _ _ _ _ _ _ _ _ _ _ _ Hload).
  fold filename. rewrite Hcheck.
  assert (call (build_ireq_set specifiers
                  (derive_lookup_index_urls lookup_index_urls checked.1
                     checked.2 req_file)
                  prereleases resolve_canonical_names
                  (resolve_source_dir working_directory) resolve_versions) w
          = (Return new, w1)) as Hcall1 by (unfold call; by rewrite Hnew).
  rewrite (bind_return _ _ _ _ _ Hcall1). unfold merge_and_rewrite.
  assert (call (resolve_ireqs (RequirementFile.requirements req_file ∪ new)
                  prereleases true) w1 = (Return written, w2)) as Hcall2
    by (unfold call; by rewrite Hres).
  rewrite (bind_return _ _ _ _ _ Hcall2).
  destruct (nested_labels_cases (parent filename)
              (RequirementFile.nested_cfiles req_file) w2)
    as [(cs & Hcs & Hcall) | (msg & Hcs & _)].
  - rewrite (bind_return _ _ _ _ _ Hcs).
    destruct (nested_labels_cases (parent filename)
                (RequirementFile.nested_rfiles req_file) w2)
      as [(rs & Hrs & Hrall) | (msg & Hrs & _)].
    + apply Exists_app in Hout as [Hout | Hout];
        apply Exists_exists in Hout as (f & Hf & Hnone).
      * rewrite Forall_forall in Hcall. apply Hcall in Hf as [? Hsome].
        congruence.
      * rewrite Forall_forall in Hrall. apply Hrall in Hf as [? Hsome].
        congruence.
    + exists msg. by rewrite (bind_raise _ _ _ _ _ Hrs).
  - exists msg. by rewrite (bind_raise _ _ _ _ _ Hcs).
Qed.



(** X17.  A manifest made by [init_source_file] and read as recording no
    index URL cannot be extended with an index URL: the call that gives
    one raises the mismatch error and leaves the fresh manifest as it
    is. *)
Theorem init_then_extend_with_index_url
    working_directory tag_name extension index_url0 extra_index_urls0
    encoding errors mode overwrite w p w1
    specifiers (u : string) extra_index_urls lookup_index_urls prereleases
    resolve_canonical_names resolve_versions req_file :
  copied_clock (clock w) →
  init_source_file working_directory tag_name extension index_url0
    extra_index_urls0 encoding errors mode overwrite w = (Return p, w1) →
  RequirementFile_ (to_str p) w1 = inl req_file →
  RequirementFile.index_url req_file = None →
  extend_source_file working_directory tag_name specifiers extension
    (Some u) extra_index_urls lookup_index_urls prereleases
    resolve_canonical_names resolve_versions w1
  = (Raise (IndexUrlMismatchError (mismatch_message u None)), w1).
Proof.
  intros Hclock Hinit Hload Hnone.
  apply init_source_file_return in Hinit as (-> & _ & _ & Hbytes); [| done].
  rewrite <- Hnone.
  apply extend_source_file_mismatch_raised; [| done | by rewrite Hnone].
  unfold OS.read_bytes, OS.lookup_path in Hbytes.
  destruct (files w1 !! _) as [n|]; [by eexists | done].
Qed.
End extend_more.

Section extend_more_runs.
Import Text Format Pathlib Scaffold Header Names Fixture Fixture2.

Lemma extend_source_file_written_index_configuration_witness :
  ∃ (req_file : RequirementFile.t Demo.requirement) cfiles rfiles
    (written : list Demo.requirement) header w2,
    RequirementFile_ (Collaborators := collaborators_a)
      (to_str (build_filename "/work" "base" ".in" default_prefix))
      with_manifest = inl req_file ∧
    build_source_header (L := CLocale.locale) None
      (effective_index_url
         (bool_decide
            (is_Some (files with_manifest
                        !! to_str (build_filename "/work" "base" ".in"
                                     default_prefix))))
         None (RequirementFile.index_url req_file))
      (Some (first_occurrences
               (effective_extra_index_urls
                  (bool_decide
                     (is_Some (files with_manifest
                                 !! to_str (build_filename "/work" "base" ".in"
                                              default_prefix))))
                  None (default [] None)
                  (RequirementFile.extra_index_urls req_file))))
      (Some cfiles) (Some rfiles) None w2 = (Return header, w2) ∧
    write_requirements (Collaborators := collaborators_a)
      (to_str (build_filename "/work" "base" ".in" default_prefix))
      written header w2 = (inl (), extended.2).
Proof.
  apply (extend_source_file_written_index_configuration
           (L := CLocale.locale) (C := collaborators_a)
           "/work" "base" ["flask>=2,<4"; "six"] ".in" None None None
           false true true with_manifest extended.2).
  by vm_compute.
Defined.

Lemma extend_source_file_nested_file_outside_witness :
  ∃ msg,
    extend_source_file (L := CLocale.locale)
      (C := Demo.collaborators manifest_outside resolved_new)
      "/work" "base" ["flask>=2,<4"; "six"] ".in" None None None
      false true true with_manifest
    = (Raise (ValueError msg), with_manifest).
Proof.
  apply (extend_source_file_nested_file_outside (L := CLocale.locale)
           (C := Demo.collaborators manifest_outside resolved_new)
           "/work" "base" ["flask>=2,<4"; "six"] ".in" None None None
           false true true with_manifest manifest_outside (None, [])
           {[ flask_new; six_new ]} with_manifest
           (Demo.merge_by_name
              (elements ({[ flask_old ]} ∪ {[ flask_new; six_new ]}
                         : gset Demo.requirement)))
           with_manifest).
  - reflexivity.
  - by vm_compute.
  - reflexivity.
  - by vm_compute.
  - apply Exists_cons_tl, Exists_cons_hd. by vm_compute.
Defined.


Lemma init_then_extend_with_index_url_witness :
  let made :=
    init_source_file (L := CLocale.locale) "/work" "base" ".in"
      (Some "https://b") None None None 438 false with_src in
  extend_source_file (L := CLocale.locale)
    (C := Demo.collaborators manifest_plain resolved_new)
    "/work" "base" ["flask>=2,<4"; "six"] ".in" (Some "https://b")
    None None false true true made.2
  = (Raise (IndexUrlMismatchError (mismatch_message "https://b" None)),
     made.2).
Proof.
  intros made.
  apply (init_then_extend_with_index_url (L := CLocale.locale)
           (C := Demo.collaborators manifest_plain resolved_new)
           "/work" "base" ".in" (Some "https://b") None None None 438 false
           with_src manifest_path made.2
           ["flask>=2,<4"; "six"] "https://b" None None false true true
           manifest_plain).
  - by vm_compute.
  - by vm_compute.
  - reflexivity.
  - reflexivity.
Defined.
End extend_more_runs.

(** ** The labels of nested files lead back to them *)

Section labels_round_trip.
Import Text Pathlib Scaffold Names.

Lemma split_before_separator (sep : ascii) (p rest : string) :
  all_chars (λ c, negb (Ascii.eqb c sep)) p = true →
  split sep (p +:+ String sep rest) = p :: split sep rest.
Proof.
  induction p as [|c p IH].
  - intros _. change (EmptyString +:+ String sep rest) with (String sep rest).
    cbn [split]. by rewrite Ascii.eqb_refl.
  - intros [Hc Hp]%andb_true_iff. apply negb_true_iff in Hc.
    rewrite append_cons. cbn [split]. by rewrite Hc, (IH Hp).
Qed.

Lemma join_cons_cons (sep p q : string) (ps : list string) :
  join sep (p :: q :: ps) = p +:+ sep +:+ join sep (q :: ps).
Proof. reflexivity. Qed.

(** Splitting at the slashes undoes joining with slashes. *)
Lemma split_join_slash (ps : list string) :
  ps ≠ [] →
  Forall (λ p, slash_free p = true) ps →
  split "/" (join "/" ps) = ps.
Proof.
  induction ps as [|p ps IH]; [done |]. intros _ Hall.
  apply Forall_cons in Hall as [Hp Hps].
  destruct ps as [|q ps]; [by apply split_free |].
  rewrite join_cons_cons.
  change ("/" +:+ join "/" (q :: ps)) with (String "/" (join "/" (q :: ps))).
  rewrite (split_before_separator "/" _ _ Hp). by rewrite IH.
Qed.

Lemma simple_name_parts (p : string) :
  simple_name p = true →
  slash_free p = true ∧ keep_part p = true ∧
  ∃ c p', p = String c p' ∧ Ascii.eqb c "/" = false.
Proof.
  unfold simple_name.
  intros [[Hne Hfree]%andb_true_iff Hdot]%andb_true_iff.
  split; [done |]. split.
  - unfold keep_part. rewrite Hdot. by destruct p.
  - destruct p as [|c p']; [done |]. exists c, p'. split; [done |].
    apply andb_true_iff in Hfree as [Hc _]. by apply negb_true_iff.
Qed.

(** The text of a relative path of simple components reads back as that
    path. *)
Lemma parse_to_str_relative (ps : list string) :
  Forall (λ p, simple_name p = true) ps →
  parse (to_str (mkPath EmptyString ps)) = mkPath EmptyString ps.
Proof.
  intros Hall. destruct ps as [|p ps]; [done |].
  change (to_str (mkPath EmptyString (p :: ps))) with (join "/" (p :: ps)).
  unfold parse. f_equal.
  - apply Forall_cons in Hall as [Hp _].
    apply simple_name_parts in Hp as (_ & _ & c & p' & -> & Hc).
    assert (∃ tail, join "/" (String c p' :: ps) = String c tail)
      as [tail ->] by (destruct ps; by eexists).
    unfold parse_root. by rewrite starts_with_slash, Hc.
  - unfold parse_parts, slash. rewrite split_join_slash; [| done |].
    + induction Hall as [|q qs Hq _ IH]; [done |].
      rewrite filter_cons, IH. rewrite decide_True; [done |].
      by apply simple_name_parts in Hq as (_ & ? & _).
    + eapply Forall_impl; [exact Hall |].
      intros q Hq. by apply simple_name_parts in Hq as (? & _).
Qed.

(** X18.  The label of a nested file leads back to the file: when the
    components of the file's path are simple names, joining the directory
    of the manifest with the label gives the path of the file. *)
Theorem relative_label_round_trip
    (base f : Path) (label : string) :
  relative_label base f = Return label →
  Forall (λ p, simple_name p = true) (parts f) →
  joinpath base label = f.
Proof.
  intros (rel & Hroot & -> & ->)%relative_label_return Hall.
  cbn [parts] in Hall. apply Forall_app in Hall as [_ Hrel].
  destruct rel as [r ps]. cbn in Hroot, Hrel |- *. subst r.
  unfold joinpath. rewrite (parse_to_str_relative _ Hrel). done.
Qed.

Lemma relative_label_round_trip_witness :
  joinpath (mkPath "/" ["work"; "src"]) "sub/extra.in"
  = mkPath "/" ["work"; "src"; "sub"; "extra.in"].
Proof.
  apply (relative_label_round_trip
           (mkPath "/" ["work"; "src"])
           (mkPath "/" ["work"; "src"; "sub"; "extra.in"]) "sub/extra.in").
  - reflexivity.
  - by repeat constructor.
Defined.
End labels_round_trip.
